(** * OffWorld Gym: the monolith environment of the real robot and the
      image utilities of the Gazebo environments

    A shallow embedding of
      - [offworld_gym/envs/real/offworld_monolith_env.py]
        (class [OffWorldMonolithEnv]: [_initiate], [step], [reset]), and
      - [offworld_gym/envs/gazebo/utils.py]
        (class [ImageUtils]: [process_img_msg], [process_depth_msg]),
      - the rest of [OffWorldMonolithEnv] ([render], [plot]), the
        constructor, [launch_node] and [close] of [GazeboGymEnv]
        ([offworld_gym/envs/gazebo/gazebo_env.py]) and the key buffer of
        [examples/manual_control_example.py],
    followed by the properties of the specification that concern them and
    by further properties of the code.

    Conventions of the embedding.
      - Python integers are [Z]; the wall clock and rewards are rationals.
      - A Python call that may raise returns an [Outcome]; a [while True]
        loop is run on fuel and reports [Polling] when the fuel is spent,
        that is, when the loop is still going round.
      - The secured bridge is a remote object.  The environment keeps the
        list of the calls made on it, and the remote side is a [Server]
        that answers a call from the calls made before it.
      - Array elements are [fval]: not-a-number, the two infinities, or a
        finite number held as a rational.  What a floating-point type
        stores a number as is its [Rounding]: [binary32] for float32, in
        which the depth pipeline works, and [binary64] for float64, in
        which the colour pipeline clips and divides.
      - [cv2.resize] checks its arguments ([cv2_resize]); its interpolation
        is a parameter of the pipelines, a [Resize]. *)

From Stdlib Require Import ZArith QArith Qround Qpower Ascii String List Bool Lia Lqa.
Import ListNotations.

Local Open Scope Z_scope.

(* ================================================================== *)
(** ** Python values and outcomes *)

Inductive PyExc : Type :=
| AssertionError (msg : string)
| GymException (msg : string)
| ValueError (msg : string)
| IndexError (msg : string)
| Cv2Error (msg : string).

(** What a call comes to: it returns, it raises, or (only for a loop run
    on fuel) it is still running. *)
Inductive Outcome (A : Type) : Type :=
| Returned (a : A)
| Raised (e : PyExc)
| Polling.

Arguments Returned {A} a.
Arguments Raised {A} e.
Arguments Polling {A}.

(* ================================================================== *)
(** ** Array elements *)

Inductive fval : Type :=
| NaN
| PInf
| NInf
| Fin (q : Q).

Definition is_nan (v : fval) : bool :=
  match v with NaN => true | _ => false end.

Definition is_finite (v : fval) : bool :=
  match v with Fin _ => true | _ => false end.

(** [a <= b] on values that are not NaN. *)
Definition vle (a b : fval) : bool :=
  match a, b with
  | NaN, _ | _, NaN => false
  | NInf, _ => true
  | _, PInf => true
  | Fin p, Fin q => Qle_bool p q
  | _, _ => false
  end.

(** [np.maximum] and [np.minimum]: a NaN operand gives NaN. *)
Definition np_maximum (a b : fval) : fval :=
  match a, b with
  | NaN, _ | _, NaN => NaN
  | _, _ => if vle a b then b else a
  end.

Definition np_minimum (a b : fval) : fval :=
  match a, b with
  | NaN, _ | _, NaN => NaN
  | _, _ => if vle a b then a else b
  end.

(** True division of floating-point values: a zero divisor gives NaN or an
    infinity, never an exception. *)
Definition vdiv (a b : fval) : fval :=
  match a, b with
  | NaN, _ | _, NaN => NaN
  | Fin p, Fin q =>
      if Qeq_bool q 0
      then (if Qeq_bool p 0 then NaN
            else if Qle_bool 0 p then PInf else NInf)
      else Fin (p / q)
  | Fin _, _ => Fin 0
  | PInf, Fin q => if Qle_bool 0 q then PInf else NInf
  | NInf, Fin q => if Qle_bool 0 q then NInf else PInf
  | _, _ => NaN
  end.

(** The closed unit interval. *)
Definition in_unit (v : fval) : bool :=
  match v with
  | Fin q => Qle_bool 0 q && Qle_bool q 1
  | _ => false
  end.

(** An 8-bit unsigned pixel. *)
Definition is_uint8 (v : fval) : bool :=
  match v with
  | Fin q => Qeq_bool q (inject_Z (Qfloor q)) && Qle_bool 0 q && Qle_bool q 255
  | _ => false
  end.

(* ================================================================== *)
(** ** Floating-point types *)

(** The rounding of a floating-point type: what an exact result is stored
    as, a finite number of the type or, on overflow, an infinity. *)
Definition Rounding : Type := Q -> fval.

(** A value brought into a floating-point type, and the division of the
    type: the exact quotient, rounded. *)
Definition round_value (rnd : Rounding) (v : fval) : fval :=
  match v with
  | Fin q => rnd q
  | _ => v
  end.

Definition vdiv_rounded (rnd : Rounding) (a b : fval) : fval :=
  round_value rnd (vdiv a b).

(** What the pipelines rely on from the rounding to nearest of a binary
    floating-point type: the result depends on the number rounded and not
    on the fraction that denotes it, 0 and 1 are numbers of the type, a
    number between 0 and 1 stays between them, and a number of the type is
    left as it is. *)
Record ieee_rounding (rnd : Rounding) : Prop := mk_ieee_rounding {
  rnd_ext : forall p q : Q, (p == q)%Q -> rnd p = rnd q;
  rnd_zero : rnd 0%Q = Fin 0;
  rnd_one : rnd 1%Q = Fin 1;
  rnd_unit : forall q : Q, (0 <= q)%Q -> (q <= 1)%Q ->
             exists r : Q, rnd q = Fin r /\ (0 <= r)%Q /\ (r <= 1)%Q;
  rnd_idem : forall q r : Q, rnd q = Fin r -> rnd r = Fin r
}.

(** Rounding a rational to the nearest integer, a tie going to the even
    one. *)
Definition round_half_even (q : Q) : Z :=
  let f := Qfloor q in
  match Qcompare (q - inject_Z f) (1 # 2) with
  | Lt => f
  | Gt => f + 1
  | Eq => if Z.even f then f else f + 1
  end.

(** The exponent of the last place of a positive [q] in a type of [prec]
    bits: the least [e], from [e] upward, with [q < 2 ^ (e + prec)]; none
    within [fuel] steps when [q] is too large for the type. *)
Fixpoint ulp_exponent (prec : Z) (fuel : nat) (e : Z) (q : Q) : option Z :=
  match fuel with
  | O => None
  | S fuel' =>
      if Qle_bool (2 ^ (e + prec))%Q q
      then ulp_exponent prec fuel' (e + 1) q
      else Some e
  end.

(** Rounding to nearest, ties to even, of a positive rational in the binary
    type of [prec] bits whose smallest positive number is [2 ^ emin] and
    whose finite numbers lie below [2 ^ emax]. *)
Definition round_positive (prec emin emax : Z) (q : Q) : fval :=
  match ulp_exponent prec (Z.to_nat (emax - prec - emin + 1)) emin q with
  | None => PInf
  | Some e =>
      let r := (inject_Z (round_half_even (q / 2 ^ e)) * 2 ^ e)%Q in
      if Qle_bool (2 ^ emax)%Q r then PInf else Fin (Qred r)
  end.

Definition vopp (v : fval) : fval :=
  match v with
  | NaN => NaN
  | PInf => NInf
  | NInf => PInf
  | Fin q => Fin (Qred (- q))
  end.

Definition round_nearest_even (prec emin emax : Z) : Rounding := fun q =>
  if Qeq_bool q 0 then Fin 0
  else if Qle_bool 0 q then round_positive prec emin emax q
       else vopp (round_positive prec emin emax (- q)).

(** float32 and float64. *)
Definition binary32 : Rounding := round_nearest_even 24 (-149) 128.
Definition binary64 : Rounding := round_nearest_even 53 (-1074) 1024.

(* ================================================================== *)
(** ** numpy arrays: a shape and the elements in row-major order *)

Record ndarray : Type := mk_ndarray {
  shape : list nat;
  data : list fval
}.

Definition size_of (sh : list nat) : nat := fold_right Nat.mul 1%nat sh.

Definition well_shaped (a : ndarray) : Prop :=
  length (data a) = size_of (shape a).

(** [np.reshape(a, newshape)]: the elements stay, the shape changes; a
    shape of another size is a [ValueError]. *)
Definition np_reshape (a : ndarray) (newshape : list nat) : Outcome ndarray :=
  if Nat.eqb (size_of newshape) (length (data a))
  then Returned (mk_ndarray newshape (data a))
  else Raised (ValueError "cannot reshape array").

(** [np.clip(a, a_min, a_max)] is [np.minimum(a_max, np.maximum(a, a_min))]. *)
Definition clip_value (a_min a_max v : fval) : fval :=
  np_minimum a_max (np_maximum v a_min).

Definition np_clip (a : ndarray) (a_min a_max : fval) : ndarray :=
  mk_ndarray (shape a) (map (clip_value a_min a_max) (data a)).

(** [a / d] in the floating-point type of rounding [rnd]. *)
Definition np_divide (rnd : Rounding) (a : ndarray) (d : fval) : ndarray :=
  mk_ndarray (shape a) (map (fun v => vdiv_rounded rnd v d) (data a)).

(** [np.asarray(a, dtype=...)] for a floating-point type: every element is
    brought into the type. *)
Definition np_asarray_float (rnd : Rounding) (a : ndarray) : ndarray :=
  mk_ndarray (shape a) (map (round_value rnd) (data a)).

(** The largest finite float32, [(2 - 2^-23) * 2^127]. *)
Definition FLT_MAX : Q := inject_Z ((2 ^ 24 - 1) * 2 ^ 104).

(** The rounding of float32 also keeps the largest finite float32 and its
    opposite. *)
Definition float32_rounding (rnd : Rounding) : Prop :=
  ieee_rounding rnd /\
  rnd FLT_MAX = Fin FLT_MAX /\ rnd (- FLT_MAX)%Q = Fin (- FLT_MAX).

(** [np.nan_to_num] of a float32 array with its defaults: NaN becomes 0, an
    infinity becomes the finite number of largest magnitude and of the same
    sign. *)
Definition nan_to_num_value (v : fval) : fval :=
  match v with
  | NaN => Fin 0
  | PInf => Fin FLT_MAX
  | NInf => Fin (- FLT_MAX)
  | Fin q => Fin q
  end.

Definition np_nan_to_num (a : ndarray) : ndarray :=
  mk_ndarray (shape a) (map nan_to_num_value (data a)).

(** The element types met in the colour pipeline, and an array with its
    element type. *)
Inductive DType : Type :=
| uint8
| float64.

Record Image : Type := mk_image {
  dtype : DType;
  array : ndarray
}.

(* ================================================================== *)
(** ** [ImageUtils] (offworld_gym/envs/gazebo/utils.py) *)

Definition IMG_H : nat := 240.
Definition IMG_W : nat := 320.
Definition IMG_C : nat := 3.

(** The first and the third channel of every pixel change places; of a
    pixel of four channels the fourth is dropped. *)
Fixpoint bgr2rgb (l : list fval) : list fval :=
  match l with
  | b :: g :: r :: rest => r :: g :: b :: bgr2rgb rest
  | _ => l
  end.

Fixpoint bgra2rgb (l : list fval) : list fval :=
  match l with
  | b :: g :: r :: a :: rest => r :: g :: b :: bgra2rgb rest
  | _ => []
  end.

(** [cv2.cvtColor(img, cv2.COLOR_BGR2RGB)].  OpenCV converts 8-bit images
    of three or four channels that are not empty; it refuses a float64
    image, an empty one and any other number of channels. *)
Definition cvtColor_BGR2RGB (img : Image) : Outcome Image :=
  match dtype img with
  | float64 => Raised (Cv2Error "Unsupported depth of input image")
  | uint8 =>
      match shape (array img) with
      | [h; w; c] =>
          if Nat.eqb (h * w) 0 then Raised (Cv2Error "empty input image")
          else if Nat.eqb c 3
          then Returned (mk_image uint8
                           (mk_ndarray [h; w; 3%nat]
                                       (bgr2rgb (data (array img)))))
          else if Nat.eqb c 4
          then Returned (mk_image uint8
                           (mk_ndarray [h; w; 3%nat]
                                       (bgra2rgb (data (array img)))))
          else Raised (Cv2Error "Invalid number of channels in input image")
      | _ => Raised (Cv2Error "Invalid number of channels in input image")
      end
  end.

(** The interpolation of [cv2.resize] belongs to OpenCV; the pipelines take
    it as a parameter, from the image, the width and the height. *)
Definition Resize : Type := ndarray -> nat -> nat -> ndarray.

(** [cv2.resize(img, (width, height))]: an empty image and a width or a
    height of 0 are refused. *)
Definition cv2_resize (resize : Resize) (img : ndarray) (width height : nat)
  : Outcome ndarray :=
  if (Nat.eqb (size_of (shape img)) 0 || Nat.eqb width 0
      || Nat.eqb height 0)%bool
  then Raised (Cv2Error "resize of an empty image or to an empty size")
  else Returned (resize img width height).

(** The last two lines of both pipelines:
    [if max_value_for_clip_and_normalize is not None:
       img = np.clip(img, a_min=0.0, a_max=max_value_for_clip_and_normalize)
       img = img / max_value_for_clip_and_normalize],
    in the floating-point type of rounding [rnd]: the maximum is brought
    into the type, the quotients are rounded. *)
Definition clip_and_normalize (rnd : Rounding) (img : ndarray)
    (max_value_for_clip_and_normalize : option fval) : ndarray :=
  match max_value_for_clip_and_normalize with
  | Some m =>
      let m := round_value rnd m in
      np_divide rnd (np_clip img (Fin 0) m) m
  | None => img
  end.

(** The same on an 8-bit image: clipped against floating-point bounds it
    becomes a float64 array, its values being kept as they are. *)
Definition clip_and_normalize_image (rnd : Rounding) (img : Image)
    (max_value_for_clip_and_normalize : option fval) : Image :=
  match max_value_for_clip_and_normalize with
  | Some _ =>
      mk_image float64
        (clip_and_normalize rnd (array img)
                            max_value_for_clip_and_normalize)
  | None => img
  end.

(** The body of [process_img_msg] from [np.asarray] on, on an array and
    its element type.  An 8-bit image clipped against floating-point bounds
    is a float64 array. *)
Definition process_img_array (resize : Resize)
    (img : Image) (resized_width resized_height : nat)
    (max_value_for_clip_and_normalize : option fval) : Outcome Image :=
  match cvtColor_BGR2RGB img with
  | Returned img =>
      match cv2_resize resize (array img) resized_width resized_height with
      | Returned a =>
          match shape a with
          | s0 :: s1 :: s2 :: _ =>
              match np_reshape a [1%nat; s0; s1; s2] with
              | Returned a =>
                  Returned (clip_and_normalize_image binary64
                              (mk_image (dtype img) a)
                              max_value_for_clip_and_normalize)
              | Raised e => Raised e
              | Polling => Polling
              end
          | _ => Raised (IndexError "tuple index out of range")
          end
      | Raised e => Raised e
      | Polling => Polling
      end
  | Raised e => Raised e
  | Polling => Polling
  end.

(** [process_img_msg].  [img_msg] stands for the BGR image that
    [CvBridge().imgmsg_to_cv2(img_msg, "bgr8")] hands back, an 8-bit
    image. *)
Definition process_img_msg (resize : Resize)
    (img_msg : ndarray) (resized_width resized_height : nat)
    (max_value_for_clip_and_normalize : option fval) : Outcome Image :=
  process_img_array resize (mk_image uint8 img_msg)
                    resized_width resized_height
                    max_value_for_clip_and_normalize.

(** [process_depth_msg].  [depth_msg] stands for the single-channel image
    that [CvBridge().imgmsg_to_cv2(depth_msg, "32FC1")] hands back; the
    array is a float32 array from [np.asarray] on. *)
Definition process_depth_msg (resize : Resize)
    (depth_msg : ndarray) (resized_width resized_height : nat)
    (max_value_for_clip_and_normalize : option fval) : Outcome ndarray :=
  let img := np_asarray_float binary32 depth_msg in
  let img := np_nan_to_num img in
  match cv2_resize resize img resized_width resized_height with
  | Returned img =>
      match shape img with
      | s0 :: s1 :: _ =>
          match np_reshape img [1%nat; s0; s1; 1%nat] with
          | Returned img =>
              Returned (clip_and_normalize binary32 img
                          max_value_for_clip_and_normalize)
          | failed => failed
          end
      | _ => Raised (IndexError "tuple index out of range")
      end
  | failed => failed
  end.

(** The frame inside a batch of one: [out[0]], the way the output of one
    pass is handed to the next. *)
Definition first_of_batch (out : ndarray) : ndarray :=
  mk_ndarray (tl (shape out)) (data out).

Definition first_image_of_batch (out : Image) : Image :=
  mk_image (dtype out) (first_of_batch (array out)).

(** What the pipelines rely on from the interpolation, on the calls that
    [cv2.resize] accepts: an image of two dimensions, or of three with
    three channels, that is not empty, and a width and a height that are
    not 0. *)
Definition resize_accepts (img : ndarray) (w h : nat) : Prop :=
  (exists sh sw rest,
     shape img = sh :: sw :: rest /\ (rest = [] \/ rest = [3%nat]) /\
     (0 < sh)%nat /\ (0 < sw)%nat) /\
  (0 < w)%nat /\ (0 < h)%nat.

Definition resize_gives_size (resize : Resize) : Prop :=
  forall img w h,
    resize_accepts img w h -> well_shaped img ->
    shape (resize img w h) = h :: w :: skipn 2 (shape img) /\
    well_shaped (resize img w h).

Definition resize_keeps_finite (resize : Resize) : Prop :=
  forall img w h,
    resize_accepts img w h ->
    forallb is_finite (data img) = true ->
    forallb is_finite (data (resize img w h)) = true.

Definition resize_same_size_copies (resize : Resize) : Prop :=
  forall img w h,
    resize_accepts img w h ->
    firstn 2 (shape img) = [h; w] -> resize img w h = img.

(** An interpolation that meets the three of them: a copy when the size is
    already the wanted one, the nearest source pixel otherwise. *)
Definition nearest_resize : Resize := fun img w h =>
  match shape img with
  | sh :: sw :: rest =>
      if (Nat.eqb sh h && Nat.eqb sw w)%bool then img
      else
        let c := size_of rest in
        mk_ndarray (h :: w :: rest)
          (flat_map (fun i =>
             flat_map (fun j =>
               map (fun k =>
                      nth ((i * sh / h) * sw * c + (j * sw / w) * c + k)%nat
                          (data img) (Fin 0))
                   (seq 0 c))
               (seq 0 w))
             (seq 0 h))
  | _ => img
  end.

(** A colour frame as the bridge decodes it: [sh] rows of [sw] pixels of
    three 8-bit channels, neither dimension being zero. *)
Definition bgr8_frame (img : ndarray) (sh sw : nat) : Prop :=
  shape img = [sh; sw; 3%nat] /\ (0 < sh)%nat /\ (0 < sw)%nat /\
  well_shaped img /\ forallb is_uint8 (data img) = true.

(** A depth frame as the bridge decodes it: [sh] rows of [sw] floating-point
    values, any of which may be NaN or infinite. *)
Definition depth_frame (img : ndarray) (sh sw : nat) : Prop :=
  shape img = [sh; sw] /\ (0 < sh)%nat /\ (0 < sw)%nat /\ well_shaped img.

(** Clipping to [[0, m]] and dividing by [m] in the type of rounding
    [rnd], on one value. *)
Definition clip_divide (rnd : Rounding) (m v : fval) : fval :=
  vdiv_rounded rnd (clip_value (Fin 0) m v) m.

(** Frames of one pixel, used as examples. *)
Definition blue_pixel : ndarray :=
  mk_ndarray [1%nat; 1%nat; 3%nat] [Fin 1; Fin 0; Fin 0].

Definition grey_pixel : ndarray :=
  mk_ndarray [1%nat; 1%nat; 3%nat] [Fin 1; Fin 1; Fin 1].

Definition infinite_depth_pixel : ndarray :=
  mk_ndarray [1%nat; 1%nat] [PInf].

(* ================================================================== *)
(** ** Enumerations of offworld_gym.envs.common *)

(** Modelled from the spec: the enumeration [FourDiscreteMotionActions] of
    offworld_gym/envs/common/actions.py, which is not among the sources.
    The spec gives its four members and their integer values, 0 for Left,
    1 for Right, 2 for Forward and 3 for Backward; the key table of
    examples/manual_control_example.py (left 0, right 1, up 2, down 3)
    agrees with it. *)
Inductive FourDiscreteMotionActions : Type :=
| LEFT
| RIGHT
| FORWARD
| BACKWARD.

Definition action_value (a : FourDiscreteMotionActions) : Z :=
  match a with
  | LEFT => 0
  | RIGHT => 1
  | FORWARD => 2
  | BACKWARD => 3
  end.

(** The call [FourDiscreteMotionActions(v)]: the member of value [v], a
    [ValueError] when there is none. *)
Definition FourDiscreteMotionActions_call (v : Z)
  : Outcome FourDiscreteMotionActions :=
  if v =? 0 then Returned LEFT
  else if v =? 1 then Returned RIGHT
  else if v =? 2 then Returned FORWARD
  else if v =? 3 then Returned BACKWARD
  else Raised (ValueError "is not a valid FourDiscreteMotionActions").

(** Modelled from the spec: the enumeration [Channels] of
    offworld_gym/envs/common/channels.py, which is not among the sources.
    The value of a member is its number of channels: 1 for depth only,
    3 for RGB only, 4 for RGBD. *)
Inductive Channels : Type :=
| DEPTH_ONLY
| RGB_ONLY
| RGBD.

Definition Channels_value (c : Channels) : nat :=
  match c with
  | DEPTH_ONLY => 1
  | RGB_ONLY => 3
  | RGBD => 4
  end.

(** Modelled from the spec: the heartbeat of a handshake,
    offworld_gym/envs/real/core/request.py, which is not among the sources.
    The code tells [SetUpRequest.STATUS_RUNNING] from every other status. *)
Inductive Heartbeat : Type :=
| STATUS_RUNNING
| STATUS_OTHER (code : string).

Definition is_running (h : Heartbeat) : bool :=
  match h with STATUS_RUNNING => true | STATUS_OTHER _ => false end.

(* ================================================================== *)
(** ** The values an agent may pass as an action *)

Inductive PyValue : Type :=
| PyNone
| PyBool (b : bool)
| PyInt (z : Z)
| NpInt32 (z : Z)
| NpInt64 (z : Z)
| PyFloat (q : Q)
| PyStr (s : string)
| PyAction (a : FourDiscreteMotionActions).

(** [isinstance(v, (int, np.int32, np.int64))]; a Python [bool] is an
    [int]. *)
Definition isinstance_int (v : PyValue) : bool :=
  match v with
  | PyBool _ | PyInt _ | NpInt32 _ | NpInt64 _ => true
  | _ => false
  end.

(** [isinstance(v, (FourDiscreteMotionActions, int, np.int32, np.int64))]. *)
Definition isinstance_action (v : PyValue) : bool :=
  match v with
  | PyAction _ => true
  | _ => isinstance_int v
  end.

Definition int_value (v : PyValue) : Z :=
  match v with
  | PyBool b => if b then 1 else 0
  | PyInt z | NpInt32 z | NpInt64 z => z
  | _ => 0
  end.

(* ================================================================== *)
(** ** The secured bridge and the remote server *)

Inductive BridgeCall : Type :=
| PerformHandshake (experiment_name : string) (resume_experiment : bool)
| PerformAction (action : FourDiscreteMotionActions) (channel_type : Channels)
| PerformReset (channel_type : Channels).

Record HandshakeReply : Type := mk_reply {
  heartbeat : option Heartbeat;
  registered : bool;
  message : string
}.

(** The remote side.  Every answer may depend on the calls made so far.  A
    handshake also tells how many seconds the call took. *)
Record Server : Type := mk_server {
  on_handshake : list BridgeCall -> string -> bool -> HandshakeReply * Q;
  on_action : list BridgeCall -> FourDiscreteMotionActions -> Channels ->
              ndarray * Q * bool;
  on_reset : list BridgeCall -> Channels -> ndarray
}.

(* ================================================================== *)
(** ** [OffWorldMonolithEnv] (offworld_gym/envs/real/offworld_monolith_env.py) *)

Definition _EPISODE_LENGTH : Z := 100.

Record Env : Type := mk_env {
  experiment_name : string;
  resume_experiment : bool;
  _channel_type : Channels;
  observation_space : list nat;
  action_space : Z;
  step_count : Z;
  _last_state : option ndarray;
  bridge_calls : list BridgeCall
}.

Definition set_step_count (env : Env) (n : Z) : Env :=
  mk_env (experiment_name env) (resume_experiment env) (_channel_type env)
         (observation_space env) (action_space env)
         n (_last_state env) (bridge_calls env).

Definition set_last_state (env : Env) (s : ndarray) : Env :=
  mk_env (experiment_name env) (resume_experiment env) (_channel_type env)
         (observation_space env) (action_space env)
         (step_count env) (Some s) (bridge_calls env).

Definition record_call (env : Env) (c : BridgeCall) : Env :=
  mk_env (experiment_name env) (resume_experiment env) (_channel_type env)
         (observation_space env) (action_space env)
         (step_count env) (_last_state env) (bridge_calls env ++ [c]).

(** The shape given to [spaces.Box] in [__init__]:
    [(1, ImageUtils.IMG_H, ImageUtils.IMG_W, channel_type.value)]. *)
Definition observation_shape (channel_type : Channels) : list nat :=
  [1%nat; IMG_H; IMG_W; Channels_value channel_type].

(** *** [_initiate] *)

(** Where one round of the [while True] loop leaves the control: at
    [continue], at [break], at a [raise], or past the [if] chain, on the
    line that reads the clock. *)
Inductive Control : Type :=
| Continue
| Break
| Raise (e : PyExc)
| FallThrough.

(** The [if]/[elif]/[else] chain of the loop body. *)
Definition handshake_branch (r : HandshakeReply) : Control :=
  match heartbeat r with
  | None => Continue
  | Some h =>
      if (is_running h && registered r)%bool then Break
      else if (is_running h && negb (registered r))%bool
           then Raise (GymException (message r))
           else Raise (GymException "Gym server is not ready.")
  end.

(** [time.time() - wait_start > 60]. *)
Definition waited_too_long (now wait_start : Q) : bool :=
  negb (Qle_bool (now - wait_start) 60).

(** The loop, on fuel.  The state is the list of bridge calls and the
    clock; a handshake moves the clock by the time the call took. *)
Fixpoint _initiate_loop (server : Server) (name : string) (resume : bool)
    (wait_start : Q) (fuel : nat) (calls : list BridgeCall) (now : Q)
  : Outcome unit * list BridgeCall * Q :=
  match fuel with
  | O => (Polling, calls, now)
  | S fuel' =>
      let '(reply, took) := on_handshake server calls name resume in
      let calls := calls ++ [PerformHandshake name resume] in
      let now := (now + took)%Q in
      match handshake_branch reply with
      | Continue =>
          _initiate_loop server name resume wait_start fuel' calls now
      | Break => (Returned tt, calls, now)
      | Raise e => (Raised e, calls, now)
      | FallThrough =>
          if waited_too_long now wait_start
          then (Raised (GymException
                  "Connect to the environment server timed out."),
                calls, now)
          else _initiate_loop server name resume wait_start fuel' calls now
      end
  end.

Definition _initiate (server : Server) (name : string) (resume : bool)
    (fuel : nat) (calls : list BridgeCall) (now : Q)
  : Outcome unit * list BridgeCall * Q :=
  let wait_start := now in
  _initiate_loop server name resume wait_start fuel calls now.

(** *** [__init__] *)

Definition __init__ (server : Server) (fuel : nat) (name : string)
    (resume : bool) (channel_type : Channels) (now : Q) : Outcome Env :=
  match _initiate server name resume fuel [] now with
  | (Returned _, calls, _) =>
      Returned (mk_env name resume channel_type
                       (observation_shape channel_type) 4 0 None calls)
  | (Raised e, _, _) => Raised e
  | (Polling, _, _) => Polling
  end.

(** *** [step] *)

Record StepResult : Type := mk_result {
  state : ndarray;
  reward : Q;
  done : bool;
  info : list (string * string)
}.

(** Lines 103 to 108 of [step]: the three assertions on the action and the
    conversion of an integer to a member of the enumeration. *)
Definition decode_action (action : PyValue)
  : Outcome FourDiscreteMotionActions :=
  match action with
  | PyNone => Raised (AssertionError "Action cannot be None.")
  | _ =>
      if negb (isinstance_action action)
      then Raised (AssertionError "Action type is not recognized.")
      else
        match action with
        | PyAction a => Returned a
        | _ =>
            if ((0 <=? int_value action) && (int_value action <? 4))%bool
            then FourDiscreteMotionActions_call (int_value action)
            else Raised (AssertionError "Unrecognized value for the action")
        end
  end.

Definition step (server : Server) (env : Env) (action : PyValue)
  : Outcome StepResult * Env :=
  let env := set_step_count env (step_count env + 1) in
  match decode_action action with
  | Returned a =>
      let '(st, rw, dn) :=
        on_action server (bridge_calls env) a (_channel_type env) in
      let env := record_call env (PerformAction a (_channel_type env)) in
      let env := set_last_state env st in
      let dn := if step_count env =? _EPISODE_LENGTH then true else dn in
      let env := if dn then set_step_count env 0 else env in
      (Returned (mk_result st rw dn []), env)
  | Raised e => (Raised e, env)
  | Polling => (Polling, env)
  end.

(** *** [reset] *)

Definition reset (server : Server) (env : Env) : ndarray * Env :=
  let st := on_reset server (bridge_calls env) (_channel_type env) in
  let env := record_call env (PerformReset (_channel_type env)) in
  (st, env).

(** A run of [step] calls, one per action of the list. *)
Fixpoint run_steps (server : Server) (env : Env) (actions : list PyValue)
  : list (Outcome StepResult) * Env :=
  match actions with
  | [] => ([], env)
  | a :: rest =>
      let '(r, env1) := step server env a in
      let '(rs, env2) := run_steps server env1 rest in
      (r :: rs, env2)
  end.

(** The [done] flag of a step that returned. *)
Definition done_of (r : Outcome StepResult) : option bool :=
  match r with
  | Returned res => Some (done res)
  | _ => None
  end.

(** An action that [step] accepts. *)
Definition valid_action (v : PyValue) : bool :=
  match decode_action v with Returned _ => true | _ => false end.

(** *** Servers used as examples *)

(** A server that never answers a handshake; every call takes [took]
    seconds. *)
Definition silent_server (took : Q) : Server :=
  mk_server (fun _ _ _ => (mk_reply None false "", took))
            (fun _ _ _ => (mk_ndarray [] [], 0%Q, false))
            (fun _ _ => mk_ndarray [] []).

(** A server that accepts the registration at once and never reports the
    end of an episode. *)
Definition accepting_server : Server :=
  mk_server (fun _ _ _ => (mk_reply (Some STATUS_RUNNING) true "ok", 0%Q))
            (fun _ _ _ => (mk_ndarray [] [], 0%Q, false))
            (fun _ _ => mk_ndarray [] []).

(** The environment that [__init__] builds against [accepting_server]. *)
Definition fresh_env (channel_type : Channels) : Env :=
  mk_env "test-1" false channel_type (observation_shape channel_type) 4 0 None
         [PerformHandshake "test-1" false].

(* ================================================================== *)
(** ** [render] and [plot] of [OffWorldMonolithEnv] *)

(** Exceptions of the rest of the code, beside the ones of [PyExc]. *)
Inductive PyRaise : Type :=
| Known (e : PyExc)
| KeyError (what : string)
| NotImplementedError (what : string)
| TypeError (what : string).

Inductive Result (A : Type) : Type :=
| Done (a : A)
| Failed (e : PyRaise).

Arguments Done {A} a.
Arguments Failed {A} e.

(** [img.squeeze()]: the axes of length one are dropped. *)
Definition np_squeeze (a : ndarray) : ndarray :=
  mk_ndarray (filter (fun n => negb (Nat.eqb n 1)) (shape a)) (data a).

(** What [plot] puts on the screen: the figure of a number, its title and
    the image shown in it. *)
Record Figure : Type := mk_figure {
  fig_id : Z;
  fig_title : string;
  fig_image : ndarray
}.

(** What [plt.imshow] takes for an image: two dimensions, or three of
    which the last is 3 or 4; anything else is a [TypeError]. *)
Definition image_shaped (sh : list nat) : bool :=
  match sh with
  | [_; _] => true
  | [_; _; c] => (Nat.eqb c 3 || Nat.eqb c 4)%bool
  | _ => false
  end.

(** [plot(img, id=1, title="State")]: nothing is drawn for [None]; the
    squeezed image is shown, which [plt.imshow] may refuse. *)
Definition plot (img : option ndarray) (id : Z) (title : string)
  : Result (list Figure) :=
  match img with
  | Some a =>
      if image_shaped (shape (np_squeeze a))
      then Done [mk_figure id title (np_squeeze a)]
      else Failed (TypeError "Invalid shape for image data")
  | None => Done []
  end.

(** [render(mode)]: the figures drawn, or the exception raised. *)
Definition render (env : Env) (mode : string) : Result (list Figure) :=
  if String.eqb mode "human"
  then plot (_last_state env) 1 "State"
  else Failed (NotImplementedError mode).

(** The actions of a list that [step] accepts, decoded, in order. *)
Definition accepted_actions (actions : list PyValue)
  : list FourDiscreteMotionActions :=
  flat_map (fun v => match decode_action v with
                     | Returned a => [a]
                     | _ => []
                     end) actions.

(** The state of the last step that returned, [before] when none did. *)
Fixpoint last_returned_state (results : list (Outcome StepResult))
    (before : option ndarray) : option ndarray :=
  match results with
  | [] => before
  | Returned res :: rest => last_returned_state rest (Some (state res))
  | _ :: rest => last_returned_state rest before
  end.

(** A server that answers [reply] to every handshake, at once. *)
Definition constant_server (reply : HandshakeReply) : Server :=
  mk_server (fun _ _ _ => (reply, 0%Q))
            (fun _ _ _ => (mk_ndarray [] [], 0%Q, false))
            (fun _ _ => mk_ndarray [] []).

(** A server that stays silent for the first [k] handshakes and accepts
    the registration on the next one. *)
Definition late_server (k : nat) : Server :=
  mk_server (fun calls _ _ =>
               if Nat.ltb (length calls) k
               then (mk_reply None false "", 1%Q)
               else (mk_reply (Some STATUS_RUNNING) true "ok", 1%Q))
            (fun _ _ _ => (mk_ndarray [] [], 0%Q, false))
            (fun _ _ => mk_ndarray [] []).

(** A server whose backend reports the end of the episode on every step. *)
Definition finishing_server : Server :=
  mk_server (fun _ _ _ => (mk_reply (Some STATUS_RUNNING) true "ok", 0%Q))
            (fun _ _ _ => (mk_ndarray [1%nat] [Fin 7], 1%Q, true))
            (fun _ _ => mk_ndarray [1%nat] [Fin 9]).

(* ================================================================== *)
(** ** examples/manual_control_example.py *)

Inductive Key : Type :=
| Key_up
| Key_down
| Key_left
| Key_right
| Key_esc
| Key_other (name : string).

Definition Key_eqb (a b : Key) : bool :=
  match a, b with
  | Key_up, Key_up | Key_down, Key_down | Key_left, Key_left
  | Key_right, Key_right | Key_esc, Key_esc => true
  | Key_other x, Key_other y => String.eqb x y
  | _, _ => false
  end.

Definition Key_name (k : Key) : string :=
  match k with
  | Key_up => "Key.up"
  | Key_down => "Key.down"
  | Key_left => "Key.left"
  | Key_right => "Key.right"
  | Key_esc => "Key.esc"
  | Key_other name => name
  end.

(** [key_mapping = { Key.up: 2, Key.down: 3, Key.left: 0, Key.right: 1,
    Key.esc: -1 }]. *)
Definition key_mapping : list (Key * Z) :=
  [(Key_up, 2); (Key_down, 3); (Key_left, 0); (Key_right, 1); (Key_esc, -1)].

(** [d[key]] on a dictionary held as a list of entries. *)
Fixpoint dict_get (d : list (Key * Z)) (key : Key) : option Z :=
  match d with
  | [] => None
  | (k, v) :: rest => if Key_eqb k key then Some v else dict_get rest key
  end.

(** [on_press(key)], on the buffer [keys].  In the branch of the buffer
    that is not empty the first entry is popped before the key is looked
    up. *)
Definition on_press (keys : list Z) (key : Key) : Result unit * list Z :=
  match keys with
  | [] =>
      match dict_get key_mapping key with
      | Some code => (Done tt, keys ++ [code])
      | None => (Failed (KeyError (Key_name key)), keys)
      end
  | _ :: popped =>
      match dict_get key_mapping key with
      | Some code => (Done tt, popped ++ [code])
      | None => (Failed (KeyError (Key_name key)), popped)
      end
  end.

(** [on_release(key)]: the listener is told to stop. *)
Definition on_release (key : Key) : bool := false.

(** The presses of a list, one after the other, as long as none fails. *)
Fixpoint press_all (keys : list Z) (presses : list Key)
  : Result unit * list Z :=
  match presses with
  | [] => (Done tt, keys)
  | key :: rest =>
      match on_press keys key with
      | (Done _, keys') => press_all keys' rest
      | failed => failed
      end
  end.

(** [action = keys[0]] followed by [env.step(action)]. *)
Definition control_step (server : Server) (env : Env) (keys : list Z)
  : Outcome StepResult * Env :=
  match keys with
  | [] => (Raised (IndexError "list index out of range"), env)
  | action :: _ => step server env (PyInt action)
  end.

(* ================================================================== *)
(** ** [GazeboGymEnv] (offworld_gym/envs/gazebo/gazebo_env.py) *)

Module GazeboGymEnv.

(** What the environment does to the machine it runs on, in order. *)
Inductive Effect : Type :=
| LogInfo (msg : string)
| PrintLine (msg : string)
| Traceback
| Popen (argv : list string) (env : string -> option string)
| ThreadStart
| InitNode (name : string) (anonymous : bool)
| OnShutdownClose
| SendSigterm (pid : nat)
| System (cmd : string).

(** What [rospack.get_path] comes to: a path, [None], or an exception of
    its own. *)
Inductive PathAnswer : Type :=
| PathIs (path : string)
| PathNone
| PathRaises (e : PyExc).

(** The machine: the ROS packages, the environment variables, whether a
    process can be started (its pid) or [Popen] raises [OSError], the
    descendants of a process (or [psutil] raises), and whether a signal can
    be sent to a process. *)
Record Machine : Type := mk_machine {
  rospack_get_path : string -> PathAnswer;
  os_environ : string -> option string;
  subprocess_popen : list string -> option nat;
  psutil_children : nat -> option (list nat);
  send_signal_ok : nat -> bool
}.

Record Self : Type := mk_self {
  package_name : string;
  launch_file : string;
  node_name : string;
  roslaunch_process : option nat;
  roslaunch_wait_thread : bool
}.

(** [ros_env = os.environ.copy()], with [PYTHONPATH] set to the override
    when there is one. *)
Definition ros_env (environ : string -> option string)
  : string -> option string :=
  match environ "ROSLAUNCH_PYTHONPATH_OVERRIDE"%string with
  | Some override =>
      fun name => if String.eqb name "PYTHONPATH" then Some override
                  else environ name
  | None => environ
  end.

(** [os.path.join(a, *p)] of posixpath: a part that starts with a slash
    replaces what comes before it; otherwise it is appended, after a slash
    unless the path is empty or ends with one. *)
Definition starts_with_slash (s : string) : bool :=
  match s with
  | String c _ => Ascii.eqb c "/"%char
  | EmptyString => false
  end.

Fixpoint ends_with_slash (s : string) : bool :=
  match s with
  | EmptyString => false
  | String c EmptyString => Ascii.eqb c "/"%char
  | String _ rest => ends_with_slash rest
  end.

Definition join_part (path part : string) : string :=
  if starts_with_slash part then part
  else if (String.eqb path "" || ends_with_slash path)%bool
       then (path ++ part)%string
       else (path ++ "/" ++ part)%string.

Definition os_path_join (a : string) (p : list string) : string :=
  fold_left join_part p a.

(** The three calls after the [try] statement of [launch_node]. *)
Definition node_start (self : Self) : list Effect :=
  [LogInfo "The environment has been started.";
   InitNode (node_name self) true;
   OnShutdownClose].

(** [launch_node].  An exception that is not an [OSError] leaves the
    method before the node is initialized.  The machine is asked whether
    the process starts with the three parts of the path in hand; the
    process is started on the path that [os.path.join] makes of them. *)
Definition launch_node (m : Machine) (self : Self)
  : Outcome unit * Self * list Effect :=
  match rospack_get_path m (package_name self) with
  | PathRaises e => (Raised e, self, [])
  | PathNone =>
      (Raised (GymException "The ROS package does not exist."), self, [])
  | PathIs path =>
      let parts := [path; "launch"%string; launch_file self] in
      match subprocess_popen m parts with
      | Some pid =>
          (Returned tt,
           mk_self (package_name self) (launch_file self) (node_name self)
                   (Some pid) true,
           Popen ["roslaunch"%string;
                  os_path_join path ["launch"%string; launch_file self]]
                 (ros_env (os_environ m))
             :: ThreadStart :: node_start self)
      | None =>
          (Returned tt, self,
           PrintLine "Ros node could not be started." :: Traceback
             :: node_start self)
      end
  end.

(** [__init__(package_name, launch_file, node_name)]. *)
Definition __init__ (m : Machine) (package_name launch_file : option string)
    (node_name : string) : Outcome Self * list Effect :=
  match package_name with
  | None | Some EmptyString =>
      (Raised (AssertionError "Must provide a valid package name."), [])
  | Some pkg =>
      match launch_file with
      | None | Some EmptyString =>
          (Raised (AssertionError "Must provide a valid launch file name."),
           [])
      | Some file =>
          let self := mk_self pkg file node_name None false in
          match launch_node m self with
          | (Returned _, self', effects) => (Returned self', effects)
          | (_, self', effects) => (Returned self', effects ++ [Traceback])
          end
      end
  end.

(** The loop of [close] over the children: it stops at the first signal
    that cannot be sent. *)
Fixpoint signal_children (m : Machine) (children : list nat) : list Effect :=
  match children with
  | [] => []
  | pid :: rest =>
      if send_signal_ok m pid
      then SendSigterm pid :: signal_children m rest
      else [Traceback]
  end.

(** The four commands that end [close]. *)
Definition killall_commands : list Effect :=
  [System "killall -9 -u `whoami` gzclient";
   System "killall -9 -u `whoami` gzserver";
   System "killall -9 -u `whoami` rosmaster";
   System "killall -9 -u `whoami` roscore"].

(** The [try] statement of [close]. *)
Definition terminate_children (m : Machine) (self : Self) : list Effect :=
  match roslaunch_process self with
  | None => [Traceback]
  | Some pid =>
      match psutil_children m pid with
      | None => [Traceback]
      | Some children => signal_children m children
      end
  end.

(** [close]. *)
Definition close (m : Machine) (self : Self) : list Effect :=
  LogInfo "Closing the environment and all processes. "
    :: terminate_children m self ++ killall_commands.

(** The pids that a list of effects sends SIGTERM to. *)
Definition signalled (effects : list Effect) : list nat :=
  flat_map (fun e => match e with SendSigterm pid => [pid] | _ => [] end)
           effects.

(** A machine on which everything works: one package, a process of pid 100
    with the descendants 101 and 102. *)
Definition working_machine : Machine :=
  mk_machine (fun _ => PathIs "/opt/ros/pkg")
             (fun name =>
                if String.eqb name "ROSLAUNCH_PYTHONPATH_OVERRIDE"
                then Some "/override"%string else None)
             (fun _ => Some 100%nat)
             (fun _ => Some [101%nat; 102%nat])
             (fun _ => true).

(** The same machine, on which the process 102 cannot be signalled and
    has the further sibling 103. *)
Definition failing_machine : Machine :=
  mk_machine (fun _ => PathIs "/opt/ros/pkg")
             (fun _ => None)
             (fun _ => Some 100%nat)
             (fun _ => Some [101%nat; 102%nat; 103%nat])
             (fun pid => negb (Nat.eqb pid 102)).

End GazeboGymEnv.

(* ================================================================== *)
(** * Properties *)

(* ------------------------------------------------------------------ *)
(** ** Decoding of the action *)

Lemma decode_action_int :
  forall v, isinstance_int v = true ->
    decode_action v =
      if ((0 <=? int_value v) && (int_value v <? 4))%bool
      then FourDiscreteMotionActions_call (int_value v)
      else Raised (AssertionError "Unrecognized value for the action").
Proof.
  intros v Hv; destruct v; simpl in Hv; try discriminate; reflexivity.
Qed.

Lemma enum_call_value :
  forall a, FourDiscreteMotionActions_call (action_value a) = Returned a.
Proof. destruct a; reflexivity. Qed.

Lemma enum_call_returned :
  forall z a, FourDiscreteMotionActions_call z = Returned a ->
              z = action_value a.
Proof.
  intros z a; unfold FourDiscreteMotionActions_call.
  destruct (Z.eqb_spec z 0); [intros [= <-]; assumption|].
  destruct (Z.eqb_spec z 1); [intros [= <-]; assumption|].
  destruct (Z.eqb_spec z 2); [intros [= <-]; assumption|].
  destruct (Z.eqb_spec z 3); [intros [= <-]; assumption|].
  discriminate.
Qed.

Lemma decode_int_returned :
  forall z a, decode_action (PyInt z) = Returned a -> z = action_value a.
Proof.
  intros z a; rewrite decode_action_int by reflexivity; simpl.
  destruct ((0 <=? z) && (z <? 4))%bool; [|discriminate].
  apply enum_call_returned.
Qed.

(** C6.  Decoding sends the integers 0, 1, 2, 3 to Left, Right, Forward,
    Backward in this order; on the integers 0 to 3 it is one-to-one and
    onto the four actions; an absent action, an integer outside 0..3 and a
    value that is neither a member of the enumeration nor of the integer
    family are each refused by a failed assertion (the
    [InvalidActionError] of the specification).  A member of the
    enumeration is kept as it is, and a Python [bool], which belongs to the
    integer family, is read as the integer 0 or 1. *)
Theorem decode_action_bijection :
  (decode_action (PyInt 0) = Returned LEFT /\
   decode_action (PyInt 1) = Returned RIGHT /\
   decode_action (PyInt 2) = Returned FORWARD /\
   decode_action (PyInt 3) = Returned BACKWARD) /\
  (forall z1 z2 a,
     decode_action (PyInt z1) = Returned a ->
     decode_action (PyInt z2) = Returned a -> z1 = z2) /\
  (forall a, exists z,
     0 <= z <= 3 /\ decode_action (PyInt z) = Returned a) /\
  decode_action PyNone = Raised (AssertionError "Action cannot be None.") /\
  (forall v, isinstance_int v = true ->
     int_value v < 0 \/ 3 < int_value v ->
     decode_action v =
       Raised (AssertionError "Unrecognized value for the action")) /\
  (forall v, v <> PyNone -> isinstance_action v = false ->
     decode_action v =
       Raised (AssertionError "Action type is not recognized.")) /\
  (forall a, decode_action (PyAction a) = Returned a) /\
  (forall b, decode_action (PyBool b) = Returned (if b then RIGHT else LEFT)).
Proof.
  split; [repeat split; reflexivity|].
  split.
  { intros z1 z2 a H1 H2.
    apply decode_int_returned in H1; apply decode_int_returned in H2.
    congruence. }
  split.
  { intros a; exists (action_value a); split.
    - destruct a; simpl; lia.
    - rewrite decode_action_int by reflexivity; simpl.
      destruct a; reflexivity. }
  split; [reflexivity|].
  split.
  { intros v Hv Hout; rewrite decode_action_int by assumption.
    destruct (Z.leb_spec 0 (int_value v)); simpl; [|reflexivity].
    destruct (Z.ltb_spec (int_value v) 4); [lia|reflexivity]. }
  split.
  { intros v Hnone Hty.
    destruct v; simpl in Hty; try discriminate; try reflexivity.
    congruence. }
  split; [reflexivity | intros []; reflexivity].
Qed.

Lemma decode_action_bijection_witness :
  decode_action (NpInt64 7) =
    Raised (AssertionError "Unrecognized value for the action") /\
  decode_action (PyStr "up") =
    Raised (AssertionError "Action type is not recognized.").
Proof.
  destruct decode_action_bijection as (_ & _ & _ & _ & Hrange & Htype & _).
  split.
  - apply Hrange; [reflexivity | right; simpl; lia].
  - apply Htype; [discriminate | reflexivity].
Defined.

(* ------------------------------------------------------------------ *)
(** ** [step] and the counter of steps *)

Lemma step_rejected :
  forall server env v e,
    decode_action v = Raised e ->
    step server env v = (Raised e, set_step_count env (step_count env + 1)).
Proof. intros server env v e H; unfold step; rewrite H; reflexivity. Qed.

Ltac enum_call_cases :=
  unfold FourDiscreteMotionActions_call;
  repeat match goal with
         | |- context [if ?c then _ else _] => destruct c
         end;
  discriminate.

Lemma decode_action_not_polling :
  forall v, decode_action v <> Polling.
Proof.
  intros v; destruct v; simpl; try discriminate;
    try (destruct ((0 <=? z) && (z <? 4))%bool; [enum_call_cases|discriminate]).
  destruct b; discriminate.
Qed.

(** C7.  [step(None)] raises the failed assertion on the absent action and
    the list of calls made on the bridge is the one from before the call:
    the backend has not been invoked. *)
Theorem step_none_raises_before_backend :
  forall server env,
    fst (step server env PyNone) =
      Raised (AssertionError "Action cannot be None.") /\
    bridge_calls (snd (step server env PyNone)) = bridge_calls env.
Proof. intros server env; split; reflexivity. Qed.

(** C10.  The counter of steps is incremented before the action is
    looked at: a call that is rejected for its action raises and leaves the
    counter one higher than it found it. *)
Theorem step_rejected_still_counts :
  forall server env v,
    valid_action v = false ->
    (exists e, fst (step server env v) = Raised e) /\
    step_count (snd (step server env v)) = step_count env + 1 /\
    bridge_calls (snd (step server env v)) = bridge_calls env.
Proof.
  intros server env v Hv; unfold valid_action in Hv.
  destruct (decode_action v) as [a|e|] eqn:Hd; [discriminate| |].
  - rewrite (step_rejected _ _ _ _ Hd); simpl.
    split; [exists e; reflexivity | split; reflexivity].
  - exfalso; exact (decode_action_not_polling v Hd).
Qed.

Lemma step_rejected_still_counts_witness :
  valid_action PyNone = false /\
  ((exists e, fst (step accepting_server (fresh_env RGB_ONLY) PyNone)
              = Raised e) /\
   step_count (snd (step accepting_server (fresh_env RGB_ONLY) PyNone))
     = step_count (fresh_env RGB_ONLY) + 1 /\
   bridge_calls (snd (step accepting_server (fresh_env RGB_ONLY) PyNone))
     = bridge_calls (fresh_env RGB_ONLY)).
Proof.
  split; [reflexivity|].
  apply (step_rejected_still_counts accepting_server (fresh_env RGB_ONLY)
           PyNone).
  reflexivity.
Defined.

Lemma init_accepted :
  forall channel_type fuel,
    __init__ accepting_server (S fuel) "test-1" false channel_type 0
    = Returned (fresh_env channel_type).
Proof. reflexivity. Qed.

Section EpisodeCap.

Variable server : Server.

(** The backend never reports the end of the episode. *)
Hypothesis backend_never_done :
  forall calls a c, snd (on_action server calls a c) = false.

Lemma step_below_cap :
  forall env v,
    valid_action v = true ->
    0 <= step_count env < 100 ->
    done_of (fst (step server env v))
      = Some ((step_count env + 1) mod 100 =? 0) /\
    step_count (snd (step server env v)) = (step_count env + 1) mod 100.
Proof.
  intros env v Hv Hc; unfold valid_action in Hv.
  destruct (decode_action v) as [a| |] eqn:Hd; try discriminate.
  unfold step; rewrite Hd.
  cbn [set_step_count bridge_calls _channel_type].
  specialize (backend_never_done (bridge_calls env) a (_channel_type env)).
  destruct (on_action server (bridge_calls env) a (_channel_type env))
    as [[st rw] dn].
  simpl in backend_never_done; subst dn.
  assert (Hsc : step_count
                  (set_last_state
                     (record_call (set_step_count env (step_count env + 1))
                        (PerformAction a (_channel_type env))) st)
                = step_count env + 1) by reflexivity.
  rewrite Hsc; unfold _EPISODE_LENGTH.
  destruct (Z.eqb_spec (step_count env + 1) 100) as [E|E].
  - rewrite E; simpl; split; reflexivity.
  - rewrite Z.mod_small by lia.
    cbn [fst snd done_of done].
    rewrite Hsc.
    split; [|reflexivity].
    destruct (Z.eqb_spec (step_count env + 1) 0); [lia|reflexivity].
Qed.

Lemma run_steps_flags :
  forall actions env,
    forallb valid_action actions = true ->
    0 <= step_count env < 100 ->
    map done_of (fst (run_steps server env actions))
      = map (fun k => Some ((step_count env + Z.of_nat k) mod 100 =? 0))
            (seq 1 (length actions)) /\
    step_count (snd (run_steps server env actions))
      = (step_count env + Z.of_nat (length actions)) mod 100.
Proof.
  induction actions as [|v rest IH]; intros env Hall Hc.
  - simpl; split; [reflexivity|].
    rewrite Z.add_0_r, Z.mod_small by lia; reflexivity.
  - simpl in Hall; apply andb_prop in Hall as [Hv Hrest].
    destruct (step_below_cap env v Hv Hc) as [Hflag Hcount].
    cbn [run_steps].
    destruct (step server env v) as [r env1] eqn:Hs.
    cbn [fst snd] in Hflag, Hcount.
    assert (Hc1 : 0 <= step_count env1 < 100)
      by (rewrite Hcount; apply Z.mod_pos_bound; lia).
    destruct (IH env1 Hrest Hc1) as [IHf IHc].
    destruct (run_steps server env1 rest) as [rs env2].
    cbn [fst snd map length] in *.
    split.
    + rewrite Hflag, IHf.
      cbn [seq map]; f_equal.
      rewrite <- (seq_shift (length rest) 1), map_map.
      apply map_ext; intros k.
      rewrite Hcount, Z.add_mod_idemp_l by lia.
      do 3 f_equal; lia.
    + rewrite IHc, Hcount, Z.add_mod_idemp_l by lia.
      f_equal; lia.
Qed.

(** C3.  From the start of an episode, while the backend keeps reporting
    that the episode is not done, the flag that the k-th accepted [step]
    returns is true exactly when k is a multiple of 100: false on the
    steps 1 to 99, true on the 100th.  And after any [step] that returns
    a true flag the counter of steps is 0. *)
Theorem episode_ends_on_100th_step :
  forall env actions,
    step_count env = 0 ->
    forallb valid_action actions = true ->
    map done_of (fst (run_steps server env actions))
      = map (fun k => Some (Z.of_nat k mod 100 =? 0))
            (seq 1 (length actions)) /\
    (forall e v res e',
       step server e v = (Returned res, e') ->
       done res = true -> step_count e' = 0).
Proof.
  intros env actions H0 Hall; split.
  - destruct (run_steps_flags actions env Hall) as [Hf _]; [lia|].
    rewrite Hf; apply map_ext; intros k; rewrite H0; reflexivity.
  - intros e v res e' Hs Hd; unfold step in Hs.
    destruct (decode_action v) as [a| |]; try discriminate.
    destruct (on_action server _ a _) as [[st rw] dn].
    injection Hs as <- <-; simpl in Hd.
    cbn [set_step_count record_call set_last_state step_count] in *.
    destruct (if step_count e + 1 =? _EPISODE_LENGTH then true else dn);
      [reflexivity | discriminate].
Qed.

End EpisodeCap.

Lemma episode_ends_on_100th_step_witness :
  (forall calls a c, snd (on_action accepting_server calls a c) = false) /\
  step_count (fresh_env RGB_ONLY) = 0 /\
  forallb valid_action (repeat (PyAction FORWARD) 100) = true /\
  map done_of (fst (run_steps accepting_server (fresh_env RGB_ONLY)
                      (repeat (PyAction FORWARD) 100)))
    = repeat (Some false) 99 ++ [Some true].
Proof.
  split; [reflexivity|].
  split; [reflexivity|].
  split; [reflexivity|].
  destruct (episode_ends_on_100th_step accepting_server
              (fun _ _ _ => eq_refl) (fresh_env RGB_ONLY)
              (repeat (PyAction FORWARD) 100) eq_refl eq_refl) as [H _].
  rewrite H; reflexivity.
Defined.

(* ------------------------------------------------------------------ *)
(** ** [reset] *)

Lemma reset_keeps_step_count :
  forall server env,
    step_count (snd (reset server env)) = step_count env.
Proof. reflexivity. Qed.

(** C2.  The code against the claim: after one accepted step of a fresh
    environment the counter of steps is 1, and [reset] hands it back at 1,
    not at 0; [reset] only calls the bridge.  The episode that follows the
    reset is then cut short: its 99th step already returns a true flag. *)
Theorem reset_mid_episode_keeps_count :
  let env1 := snd (step accepting_server (fresh_env RGB_ONLY)
                        (PyAction FORWARD)) in
  let env2 := snd (reset accepting_server env1) in
  step_count env1 = 1 /\
  step_count env2 = 1 /\
  step_count env2 <> 0 /\
  bridge_calls env2 = bridge_calls env1 ++ [PerformReset RGB_ONLY] /\
  map done_of (fst (run_steps accepting_server env2
                      (repeat (PyAction FORWARD) 99)))
    = repeat (Some false) 98 ++ [Some true].
Proof.
  cbv zeta; rewrite reset_keeps_step_count.
  split; [reflexivity|].
  split; [reflexivity|].
  split; [discriminate|].
  split; reflexivity.
Qed.

(* ------------------------------------------------------------------ *)
(** ** The handshake *)

(** No reply leaves the control on the line that reads the clock. *)
Lemma handshake_branch_never_falls_through :
  forall r, handshake_branch r <> FallThrough.
Proof.
  intros r; unfold handshake_branch.
  destruct (heartbeat r); [|discriminate].
  destruct (is_running h && registered r)%bool; [discriminate|].
  destruct (is_running h && negb (registered r))%bool; discriminate.
Qed.

Lemma initiate_loop_silent :
  forall took name resume wait_start fuel calls now,
    _initiate_loop (silent_server took) name resume wait_start fuel calls now
    = (Polling,
       calls ++ repeat (PerformHandshake name resume) fuel,
       fold_right (fun _ t => (t + took)%Q) now (repeat tt fuel)).
Proof.
  intros took name resume wait_start fuel.
  induction fuel as [|fuel IH]; intros calls now.
  - simpl; rewrite app_nil_r; reflexivity.
  - cbn [_initiate_loop silent_server on_handshake handshake_branch heartbeat].
    rewrite IH, <- app_assoc; cbn [app repeat].
    f_equal.
    clear IH; revert now; induction fuel as [|fuel IH]; intros now.
    + reflexivity.
    + cbn [repeat fold_right]; rewrite IH; reflexivity.
Qed.

Lemma clock_after_rounds :
  forall took fuel now,
    (fold_right (fun _ t => (t + took)%Q) now (repeat tt fuel)
     == now + inject_Z (Z.of_nat fuel) * took)%Q.
Proof.
  intros took fuel now; induction fuel as [|fuel IH].
  - simpl; ring.
  - cbn [repeat fold_right]; rewrite IH.
    rewrite Nat2Z.inj_succ; unfold Z.succ; rewrite inject_Z_plus; ring.
Qed.

(** C1.  The code against the claim: against a server that never answers,
    whatever the time [took] that a poll takes and however many rounds the
    loop is given, [_initiate] is still polling; it has raised nothing,
    the bridge has been called once per round and the clock stands at
    [fuel * took] seconds after the first attempt.  The branch of the absent
    heartbeat goes back to the top of the loop by [continue], so the line
    that compares the elapsed time with 60 is never reached. *)
Theorem initiate_silent_server_keeps_polling :
  forall took name resume fuel calls now,
    let '(out, calls', now') :=
      _initiate (silent_server took) name resume fuel calls now in
    out = Polling /\
    calls' = calls ++ repeat (PerformHandshake name resume) fuel /\
    (now' == now + inject_Z (Z.of_nat fuel) * took)%Q.
Proof.
  intros took name resume fuel calls now.
  unfold _initiate; rewrite initiate_loop_silent.
  split; [reflexivity|]; split; [reflexivity|].
  apply clock_after_rounds.
Qed.

(** One second per poll and 600 polls: ten minutes after the first
    attempt the elapsed time is past the bound and the handshake has not
    failed. *)
Example initiate_silent_ten_minutes :
  let '(out, calls', now') :=
    _initiate (silent_server 1) "test-1" false 600 [] 0 in
  out = Polling /\ length calls' = 600%nat /\
  waited_too_long now' 0 = true.
Proof. vm_compute; repeat split. Qed.

(* ------------------------------------------------------------------ *)
(** ** Lists of pixels *)

Lemma list_ind3 {A : Type} (P : list A -> Prop) :
  P [] -> (forall a, P [a]) -> (forall a b, P [a; b]) ->
  (forall a b c l, P l -> P (a :: b :: c :: l)) ->
  forall l, P l.
Proof.
  intros H0 H1 H2 H3.
  fix IH 1.
  intros [|a [|b [|c l]]].
  - exact H0.
  - apply H1.
  - apply H2.
  - apply H3, IH.
Qed.

Lemma bgr2rgb_length : forall l, length (bgr2rgb l) = length l.
Proof.
  induction l using list_ind3; try reflexivity.
  cbn [bgr2rgb length]; rewrite IHl; reflexivity.
Qed.

Lemma bgr2rgb_involutive : forall l, bgr2rgb (bgr2rgb l) = l.
Proof.
  induction l using list_ind3; try reflexivity.
  cbn [bgr2rgb]; rewrite IHl; reflexivity.
Qed.

Lemma bgr2rgb_map :
  forall (f : fval -> fval) l, bgr2rgb (map f l) = map f (bgr2rgb l).
Proof.
  intros f; induction l using list_ind3; try reflexivity.
  cbn [bgr2rgb map]; rewrite IHl; reflexivity.
Qed.

Lemma bgr2rgb_forallb :
  forall (p : fval -> bool) l,
    forallb p l = true -> forallb p (bgr2rgb l) = true.
Proof.
  intros p; induction l using list_ind3; try (intros H; exact H).
  cbn [bgr2rgb forallb]; intros H.
  apply andb_prop in H as [Ha H]; apply andb_prop in H as [Hb H].
  apply andb_prop in H as [Hc H].
  rewrite Ha, Hb, Hc, (IHl H); reflexivity.
Qed.

Lemma forallb_impl :
  forall (p q : fval -> bool) l,
    (forall v, p v = true -> q v = true) ->
    forallb p l = true -> forallb q l = true.
Proof.
  intros p q l Hpq; rewrite !forallb_forall; auto.
Qed.

Lemma forallb_map_all :
  forall (p : fval -> bool) (f : fval -> fval) l,
    (forall v, p (f v) = true) -> forallb p (map f l) = true.
Proof.
  intros p f l H; apply forallb_forall; intros x Hx.
  apply in_map_iff in Hx as (v & <- & _); apply H.
Qed.

Lemma forallb_map_impl :
  forall (p q : fval -> bool) (f : fval -> fval) l,
    (forall v, p v = true -> q (f v) = true) ->
    forallb p l = true -> forallb q (map f l) = true.
Proof.
  intros p q f l H Hl; apply forallb_forall; intros x Hx.
  apply in_map_iff in Hx as (v & <- & Hv).
  apply H; rewrite forallb_forall in Hl; auto.
Qed.

Lemma is_uint8_finite : forall v, is_uint8 v = true -> is_finite v = true.
Proof. destruct v; simpl; auto. Qed.

Lemma flat_map_length_const :
  forall (A B : Type) (f : A -> list B) n l,
    (forall x, length (f x) = n) ->
    length (flat_map f l) = (length l * n)%nat.
Proof.
  intros A B f n l H; induction l as [|x l IH]; [reflexivity|].
  cbn [flat_map length]; rewrite length_app, H, IH; lia.
Qed.

(* ------------------------------------------------------------------ *)
(** ** Rounding to nearest, ties to even *)

Lemma pow2_pos : forall e : Z, (0 < 2 ^ e)%Q.
Proof. intros e; apply Qpower_0_lt; reflexivity. Qed.

Lemma pow2_nonzero : forall e : Z, ~ (2 ^ e == 0)%Q.
Proof.
  intros e H; pose proof (pow2_pos e) as Hp; rewrite H in Hp.
  exact (Qlt_irrefl 0 Hp).
Qed.

Lemma pow2_plus : forall a b : Z, (2 ^ (a + b) == 2 ^ a * 2 ^ b)%Q.
Proof. intros a b; apply Qpower_plus; discriminate. Qed.

Lemma pow2_le : forall a b : Z, a <= b -> (2 ^ a <= 2 ^ b)%Q.
Proof. intros a b H; apply Qpower_le_compat_l; [exact H | discriminate]. Qed.

Lemma pow2_inject : forall n : Z, 0 <= n -> (2 ^ n == inject_Z (2 ^ n))%Q.
Proof. intros n Hn; rewrite Zpower_Qpower by exact Hn; reflexivity. Qed.

Lemma pow2_cancel : forall e : Z, (2 ^ (- e) * 2 ^ e == 1)%Q.
Proof.
  intros e; rewrite <- pow2_plus.
  replace (- e + e) with 0 by lia; reflexivity.
Qed.

Lemma round_half_even_ext :
  forall p q : Q, (p == q)%Q -> round_half_even p = round_half_even q.
Proof.
  intros p q H; unfold round_half_even.
  rewrite (Qfloor_comp p q H), H; reflexivity.
Qed.

Lemma round_half_even_Z : forall n : Z, round_half_even (inject_Z n) = n.
Proof.
  intros n; unfold round_half_even; rewrite Qfloor_Z.
  replace (Qcompare (inject_Z n - inject_Z n) (1 # 2)) with Lt; [reflexivity|].
  symmetry; rewrite <- Qlt_alt.
  setoid_replace (inject_Z n - inject_Z n)%Q with 0%Q by ring.
  reflexivity.
Qed.

Lemma round_half_even_le :
  forall (x : Q) (k : Z), (x <= inject_Z k)%Q -> round_half_even x <= k.
Proof.
  intros x k Hx; unfold round_half_even.
  pose proof (Qfloor_resp_le x (inject_Z k) Hx) as Hf.
  rewrite Qfloor_Z in Hf.
  destruct (Z.eq_dec (Qfloor x) k) as [E|E].
  - assert (Hd : (x - inject_Z (Qfloor x) <= 0)%Q)
      by (rewrite E; lra).
    replace (Qcompare (x - inject_Z (Qfloor x)) (1 # 2)) with Lt; [lia|].
    symmetry; rewrite <- Qlt_alt; lra.
  - destruct (Qcompare (x - inject_Z (Qfloor x)) (1 # 2));
      [destruct (Z.even (Qfloor x))| |]; lia.
Qed.

Lemma round_half_even_ge :
  forall (x : Q) (k : Z), (inject_Z k <= x)%Q -> k <= round_half_even x.
Proof.
  intros x k Hx; unfold round_half_even.
  pose proof (Qfloor_resp_le (inject_Z k) x Hx) as Hf.
  rewrite Qfloor_Z in Hf.
  destruct (Qcompare (x - inject_Z (Qfloor x)) (1 # 2));
    [destruct (Z.even (Qfloor x))| |]; lia.
Qed.

Lemma ulp_exponent_ext :
  forall prec fuel e (p q : Q),
    (p == q)%Q -> ulp_exponent prec fuel e p = ulp_exponent prec fuel e q.
Proof.
  intros prec fuel; induction fuel as [|fuel IH]; intros e p q H;
    [reflexivity|].
  cbn [ulp_exponent]; rewrite H, (IH (e + 1) p q H); reflexivity.
Qed.

Lemma ulp_exponent_some :
  forall prec fuel e0 (q : Q) e,
    ulp_exponent prec fuel e0 q = Some e ->
    e0 <= e < e0 + Z.of_nat fuel /\
    (q < 2 ^ (e + prec))%Q /\
    (e0 < e -> (2 ^ (e - 1 + prec) <= q)%Q).
Proof.
  intros prec fuel; induction fuel as [|fuel IH]; intros e0 q e;
    [discriminate|].
  cbn [ulp_exponent].
  destruct (Qle_bool (2 ^ (e0 + prec)) q) eqn:E.
  - intros H; destruct (IH (e0 + 1) q e H) as (Hr & Hlt & Hprev).
    split; [lia|]; split; [exact Hlt|].
    intros _; destruct (Z.eq_dec e (e0 + 1)) as [->|Hne].
    + replace (e0 + 1 - 1 + prec) with (e0 + prec) by lia.
      apply Qle_bool_iff; exact E.
    + apply Hprev; lia.
  - intros [= <-]; split; [lia|]; split; [|lia].
    apply Qnot_le_lt; intros Hle; apply Qle_bool_iff in Hle; congruence.
Qed.

Lemma ulp_exponent_found :
  forall prec fuel e0 (q : Q) e1,
    e0 <= e1 < e0 + Z.of_nat fuel ->
    (q < 2 ^ (e1 + prec))%Q ->
    exists e, ulp_exponent prec fuel e0 q = Some e /\ e <= e1.
Proof.
  intros prec fuel; induction fuel as [|fuel IH]; intros e0 q e1 Hr Hq;
    [lia|].
  cbn [ulp_exponent].
  destruct (Qle_bool (2 ^ (e0 + prec)) q) eqn:E.
  - apply Qle_bool_iff in E.
    destruct (Z.eq_dec e0 e1) as [->|Hne].
    + exfalso; exact (Qlt_not_le _ _ Hq E).
    + destruct (IH (e0 + 1) q e1 ltac:(lia) Hq) as (e & He & Hle).
      exists e; split; assumption.
  - exists e0; split; [reflexivity | lia].
Qed.

Section RoundNearestEven.

Variables prec emin emax : Z.
Hypothesis prec_pos : 0 < prec.
Hypothesis one_normal : emin <= 1 - prec.
Hypothesis emax_pos : 1 <= emax.

Local Abbreviation fuel := (Z.to_nat (emax - prec - emin + 1)).

Lemma fuel_range : Z.of_nat fuel = emax - prec - emin + 1.
Proof. lia. Qed.

Lemma round_positive_ext :
  forall p q : Q,
    (p == q)%Q ->
    round_positive prec emin emax p = round_positive prec emin emax q.
Proof.
  intros p q H; unfold round_positive.
  rewrite (ulp_exponent_ext prec _ emin p q H).
  destruct (ulp_exponent prec _ emin q) as [e|]; [|reflexivity].
  assert (Hn : round_half_even (p / 2 ^ e) = round_half_even (q / 2 ^ e))
    by (apply round_half_even_ext; rewrite H; reflexivity).
  rewrite Hn; reflexivity.
Qed.

Lemma round_nearest_even_ext :
  forall p q : Q,
    (p == q)%Q ->
    round_nearest_even prec emin emax p = round_nearest_even prec emin emax q.
Proof.
  intros p q H; unfold round_nearest_even.
  assert (E1 : Qeq_bool p 0 = Qeq_bool q 0) by (rewrite H; reflexivity).
  assert (E2 : Qle_bool 0 p = Qle_bool 0 q) by (rewrite H; reflexivity).
  rewrite E1, E2, (round_positive_ext p q H).
  rewrite (round_positive_ext (- p) (- q)) by (rewrite H; reflexivity).
  reflexivity.
Qed.

Lemma pow2_div : forall a b : Z, (2 ^ a / 2 ^ b == 2 ^ (a - b))%Q.
Proof.
  intros a b; unfold Z.sub; rewrite pow2_plus, Qpower_opp; reflexivity.
Qed.

Lemma pow2_ge_1 : forall e : Z, 0 <= e -> (1 <= 2 ^ e)%Q.
Proof. intros e He; change 1%Q with (2 ^ 0)%Q; apply pow2_le; exact He. Qed.

(** A positive rational that is an integer number of units in the last
    place it is given is a number of the type. *)
Lemma round_positive_exact :
  forall (r : Q) (n e : Z),
    (r == inject_Z n * 2 ^ e)%Q ->
    emin <= e -> 0 < n <= 2 ^ prec ->
    (r < 2 ^ emax)%Q ->
    round_positive prec emin emax r = Fin (Qred r).
Proof.
  intros r n e Hr He Hn Hmax.
  assert (H2p : (2 ^ prec == inject_Z (2 ^ prec))%Q)
    by (apply pow2_inject; lia).
  assert (Hbound : (r < 2 ^ (e + 1 + prec))%Q).
  { rewrite Hr.
    apply Qle_lt_trans with (inject_Z (2 ^ prec) * 2 ^ e)%Q.
    - apply Qmult_le_compat_r; [|apply Qlt_le_weak, pow2_pos].
      rewrite <- Zle_Qle; lia.
    - rewrite <- H2p, <- pow2_plus.
      apply Qpower_lt_compat_l; [lia | reflexivity]. }
  assert (Hfound : exists e',
             ulp_exponent prec fuel emin r = Some e' /\ e' <= e + 1).
  { destruct (Z_le_gt_dec (e + 1) (emax - prec)) as [Hin|Hout].
    - apply ulp_exponent_found; [rewrite fuel_range; lia | exact Hbound].
    - destruct (ulp_exponent_found prec fuel emin r (emax - prec))
        as (e' & He' & Hle).
      + rewrite fuel_range; lia.
      + replace (emax - prec + prec) with emax by lia; exact Hmax.
      + exists e'; split; [exact He' | lia]. }
  destruct Hfound as (e' & He' & Hle).
  destruct (ulp_exponent_some prec fuel emin r e' He') as (Hr' & Hlt & Hprev).
  assert (Hint : exists N : Z,
             (r / 2 ^ e' == inject_Z N)%Q /\ (inject_Z N * 2 ^ e' == r)%Q).
  { destruct (Z_le_gt_dec e' e) as [Hle'|Hgt].
    - exists (n * 2 ^ (e - e')).
      assert (E : (r / 2 ^ e' == inject_Z (n * 2 ^ (e - e')))%Q).
      { rewrite Hr, inject_Z_mult, <- (pow2_inject (e - e')) by lia.
        rewrite <- pow2_div; field; apply pow2_nonzero. }
      split; [exact E|].
      rewrite <- E; field; apply pow2_nonzero.
    - assert (e' = e + 1) by lia; subst e'.
      assert (Hn' : n = 2 ^ prec).
      { specialize (Hprev ltac:(lia)).
        replace (e + 1 - 1 + prec) with (prec + e) in Hprev by lia.
        rewrite Hr, pow2_plus, H2p in Hprev.
        apply Qmult_le_r in Hprev; [|apply pow2_pos].
        rewrite <- Zle_Qle in Hprev; lia. }
      exists (2 ^ (prec - 1)).
      assert (E : (r / 2 ^ (e + 1) == inject_Z (2 ^ (prec - 1)))%Q).
      { rewrite Hr, Hn', <- H2p, <- (pow2_inject (prec - 1)) by lia.
        rewrite <- pow2_plus, pow2_div.
        replace (prec + e - (e + 1)) with (prec - 1) by lia; reflexivity. }
      split; [exact E|].
      rewrite <- E; field; apply pow2_nonzero. }
  destruct Hint as (N & HN & HNr).
  unfold round_positive; rewrite He'.
  rewrite (round_half_even_ext _ _ HN), round_half_even_Z.
  cbv zeta.
  replace (Qle_bool (2 ^ emax) (inject_Z N * 2 ^ e')) with false.
  - f_equal; apply Qred_complete; exact HNr.
  - symmetry; destruct (Qle_bool (2 ^ emax) (inject_Z N * 2 ^ e')) eqn:E;
      [|reflexivity].
    apply Qle_bool_iff in E; rewrite HNr in E.
    exfalso; exact (Qlt_not_le _ _ Hmax E).
Qed.

(** What a positive rational is rounded to, when it does not overflow. *)
Lemma round_positive_fin :
  forall (q r : Q),
    (0 < q)%Q ->
    round_positive prec emin emax q = Fin r ->
    exists n e,
      r = Qred (inject_Z n * 2 ^ e)%Q /\ emin <= e /\ 0 <= n <= 2 ^ prec /\
      (inject_Z n * 2 ^ e < 2 ^ emax)%Q /\
      n = round_half_even (q / 2 ^ e) /\ (q < 2 ^ (e + prec))%Q.
Proof.
  intros q r Hq; unfold round_positive.
  destruct (ulp_exponent prec fuel emin q) as [e|] eqn:He; [|discriminate].
  destruct (ulp_exponent_some prec fuel emin q e He) as (Hr & Hlt & _).
  cbv zeta.
  destruct (Qle_bool (2 ^ emax)
              (inject_Z (round_half_even (q / 2 ^ e)) * 2 ^ e)) eqn:E;
    [discriminate|].
  intros [= <-].
  exists (round_half_even (q / 2 ^ e)), e.
  split; [reflexivity|]; split; [lia|].
  split; [|split; [|split; [reflexivity | exact Hlt]]].
  - split.
    + apply round_half_even_ge.
      apply Qle_shift_div_l; [apply pow2_pos|].
      change (inject_Z 0) with 0%Q; rewrite Qmult_0_l.
      apply Qlt_le_weak; exact Hq.
    + apply round_half_even_le.
      rewrite <- (pow2_inject prec) by lia.
      apply Qle_shift_div_r; [apply pow2_pos|].
      rewrite <- pow2_plus, Z.add_comm.
      apply Qlt_le_weak; exact Hlt.
  - apply Qnot_le_lt; intros Hle; apply Qle_bool_iff in Hle; congruence.
Qed.

Lemma round_positive_idem :
  forall q r : Q,
    (0 < q)%Q ->
    round_positive prec emin emax q = Fin r ->
    r = 0%Q \/ ((0 < r)%Q /\ round_positive prec emin emax r = Fin r).
Proof.
  intros q r Hq Hround.
  destruct (round_positive_fin q r Hq Hround)
    as (n & e & -> & He & Hn & Hmax & _ & _).
  destruct (Z.eq_dec n 0) as [->|Hne].
  - left; change 0%Q with (Qred 0); apply Qred_complete.
    change (inject_Z 0) with 0%Q; ring.
  - right.
    assert (Hpos : (0 < inject_Z n * 2 ^ e)%Q).
    { apply Qmult_lt_0_compat; [|apply pow2_pos].
      change 0%Q with (inject_Z 0); rewrite <- Zlt_Qlt; lia. }
    split; [rewrite Qred_correct; exact Hpos|].
    rewrite (round_positive_ext (Qred (inject_Z n * 2 ^ e))
               (inject_Z n * 2 ^ e)) by apply Qred_correct.
    rewrite (round_positive_exact (inject_Z n * 2 ^ e) n e);
      [|reflexivity | exact He | lia | exact Hmax].
    reflexivity.
Qed.

Lemma round_positive_unit :
  forall q : Q,
    (0 < q)%Q -> (q <= 1)%Q ->
    exists r, round_positive prec emin emax q = Fin r /\
              (0 <= r)%Q /\ (r <= 1)%Q.
Proof.
  intros q Hq H1.
  assert (Hlt : (q < 2 ^ (1 - prec + prec))%Q).
  { replace (1 - prec + prec) with 1 by lia.
    apply Qle_lt_trans with 1%Q; [exact H1 | reflexivity]. }
  destruct (ulp_exponent_found prec fuel emin q (1 - prec)) as (e & He & Hle);
    [rewrite fuel_range; lia | exact Hlt |].
  destruct (ulp_exponent_some prec fuel emin q e He) as (Hr & _ & _).
  assert (Hk : (2 ^ (- e) == inject_Z (2 ^ (- e)))%Q)
    by (apply pow2_inject; lia).
  assert (Hn0 : 0 <= round_half_even (q / 2 ^ e)).
  { apply round_half_even_ge.
    apply Qle_shift_div_l; [apply pow2_pos|].
    change (inject_Z 0) with 0%Q; rewrite Qmult_0_l.
    apply Qlt_le_weak; exact Hq. }
  assert (Hn1 : round_half_even (q / 2 ^ e) <= 2 ^ (- e)).
  { apply round_half_even_le; rewrite <- Hk.
    apply Qle_shift_div_r; [apply pow2_pos|].
    rewrite pow2_cancel; exact H1. }
  assert (Hv0 : (0 <= inject_Z (round_half_even (q / 2 ^ e)) * 2 ^ e)%Q).
  { apply Qmult_le_0_compat; [|apply Qlt_le_weak, pow2_pos].
    change 0%Q with (inject_Z 0); rewrite <- Zle_Qle; exact Hn0. }
  assert (Hv1 : (inject_Z (round_half_even (q / 2 ^ e)) * 2 ^ e <= 1)%Q).
  { rewrite <- (pow2_cancel e).
    apply Qmult_le_compat_r; [|apply Qlt_le_weak, pow2_pos].
    rewrite Hk, <- Zle_Qle; exact Hn1. }
  exists (Qred (inject_Z (round_half_even (q / 2 ^ e)) * 2 ^ e)).
  unfold round_positive; rewrite He; cbv zeta.
  replace (Qle_bool (2 ^ emax)
             (inject_Z (round_half_even (q / 2 ^ e)) * 2 ^ e)) with false.
  - split; [reflexivity|]; rewrite Qred_correct; split; assumption.
  - symmetry.
    destruct (Qle_bool (2 ^ emax)
                (inject_Z (round_half_even (q / 2 ^ e)) * 2 ^ e)) eqn:E;
      [|reflexivity].
    apply Qle_bool_iff in E; exfalso.
    assert (H2 : (2 <= 2 ^ emax)%Q)
      by (change 2%Q with (2 ^ 1)%Q; apply pow2_le; lia).
    lra.
Qed.

Lemma Qeq_bool_false : forall p q : Q, Qeq_bool p q = false -> ~ (p == q)%Q.
Proof. intros p q H E; apply Qeq_bool_iff in E; congruence. Qed.

Lemma Qle_bool_lt : forall p q : Q, Qle_bool p q = false -> (q < p)%Q.
Proof.
  intros p q H; apply Qnot_le_lt; intros Hle.
  apply Qle_bool_iff in Hle; congruence.
Qed.

Lemma Qle_bool_gt : forall p q : Q, (q < p)%Q -> Qle_bool p q = false.
Proof.
  intros p q H; destruct (Qle_bool p q) eqn:E; [|reflexivity].
  apply Qle_bool_iff in E; exfalso; exact (Qlt_not_le _ _ H E).
Qed.

Lemma round_nearest_even_positive :
  forall q : Q,
    (0 < q)%Q ->
    round_nearest_even prec emin emax q = round_positive prec emin emax q.
Proof.
  intros q Hq; unfold round_nearest_even.
  destruct (Qeq_bool q 0) eqn:E.
  - apply Qeq_bool_iff in E; rewrite E in Hq.
    exfalso; exact (Qlt_irrefl 0 Hq).
  - destruct (Qle_bool 0 q) eqn:E'; [reflexivity|].
    apply Qle_bool_lt in E'; exfalso.
    exact (Qlt_irrefl 0 (Qlt_trans _ _ _ Hq E')).
Qed.

Lemma round_nearest_even_negative :
  forall q : Q,
    (q < 0)%Q ->
    round_nearest_even prec emin emax q
    = vopp (round_positive prec emin emax (- q)).
Proof.
  intros q Hq; unfold round_nearest_even.
  destruct (Qeq_bool q 0) eqn:E.
  - apply Qeq_bool_iff in E; rewrite E in Hq.
    exfalso; exact (Qlt_irrefl 0 Hq).
  - destruct (Qle_bool 0 q) eqn:E'; [|reflexivity].
    apply Qle_bool_iff in E'; exfalso; exact (Qlt_not_le _ _ Hq E').
Qed.

Lemma round_nearest_even_sign :
  forall q : Q, (q == 0)%Q \/ (0 < q)%Q \/ (q < 0)%Q.
Proof.
  intros q; destruct (Q_dec q 0) as [[H|H]|H]; auto.
Qed.

Theorem round_nearest_even_ieee :
  ieee_rounding (round_nearest_even prec emin emax).
Proof.
  constructor.
  - exact round_nearest_even_ext.
  - reflexivity.
  - rewrite round_nearest_even_positive by reflexivity.
    rewrite (round_positive_exact 1 (2 ^ (prec - 1)) (1 - prec)).
    + reflexivity.
    + rewrite <- (pow2_inject (prec - 1)) by lia.
      rewrite <- pow2_plus.
      replace (prec - 1 + (1 - prec)) with 0 by lia; reflexivity.
    + exact one_normal.
    + split; [apply Z.pow_pos_nonneg; lia|].
      apply Z.pow_le_mono_r; lia.
    + apply Qlt_le_trans with (2 ^ 1)%Q; [reflexivity | apply pow2_le; lia].
  - intros q H0 H1.
    destruct (round_nearest_even_sign q) as [E | [Hpos | Hneg]].
    + exists 0%Q; rewrite (round_nearest_even_ext q 0 E).
      split; [reflexivity | split; discriminate].
    + rewrite (round_nearest_even_positive q Hpos).
      apply round_positive_unit; assumption.
    + exfalso; exact (Qlt_not_le _ _ Hneg H0).
  - intros q r Hq.
    destruct (round_nearest_even_sign q) as [E | [Hpos | Hneg]].
    + rewrite (round_nearest_even_ext q 0 E) in Hq.
      injection Hq as <-; reflexivity.
    + rewrite (round_nearest_even_positive q Hpos) in Hq.
      destruct (round_positive_idem q r Hpos Hq) as [-> | [Hr Hidem]];
        [reflexivity|].
      rewrite (round_nearest_even_positive r Hr); exact Hidem.
    + rewrite (round_nearest_even_negative q Hneg) in Hq.
      assert (Hpos : (0 < - q)%Q) by lra.
      destruct (round_positive prec emin emax (- q)) as [| | |s] eqn:Hs;
        try discriminate.
      assert (Er : r = Qred (- s)) by (cbn [vopp] in Hq; congruence).
      subst r; clear Hq.
      destruct (round_positive_idem (- q) s Hpos Hs) as [-> | [Hr Hidem]];
        [reflexivity|].
      assert (Hneg' : (Qred (- s) < 0)%Q) by (rewrite Qred_correct; lra).
      rewrite (round_nearest_even_negative _ Hneg').
      rewrite (round_positive_ext (- Qred (- s)) s)
        by (rewrite Qred_correct; ring).
      rewrite Hidem; reflexivity.
Qed.

(** The largest finite number of the type. *)
Local Abbreviation largest :=
  (inject_Z (2 ^ prec - 1) * 2 ^ (emax - prec))%Q.

Lemma largest_below_overflow : (largest < 2 ^ emax)%Q.
Proof.
  replace emax with (prec + (emax - prec)) at 2 by lia.
  rewrite pow2_plus, (pow2_inject prec) by lia.
  apply Qmult_lt_compat_r; [apply pow2_pos|].
  rewrite <- Zlt_Qlt; lia.
Qed.

(** A multiple [n * 2 ^ e] of a unit in the last place that does not
    overflow is at most the largest finite number. *)
Lemma multiple_le_largest :
  forall n e : Z,
    e <= emax - prec -> n <= 2 ^ prec ->
    (inject_Z n * 2 ^ e < 2 ^ emax)%Q ->
    (inject_Z n * 2 ^ e <= largest)%Q.
Proof.
  intros n e He Hn Hlt.
  destruct (Z.eq_dec e (emax - prec)) as [->|Hne].
  - apply Qmult_le_compat_r; [|apply Qlt_le_weak, pow2_pos].
    replace emax with (prec + (emax - prec)) in Hlt at 2 by lia.
    rewrite pow2_plus, (pow2_inject prec) in Hlt by lia.
    apply Qmult_lt_r in Hlt; [|apply pow2_pos].
    rewrite <- Zlt_Qlt in Hlt; rewrite <- Zle_Qle; lia.
  - apply Qle_trans with (inject_Z (2 ^ prec) * 2 ^ e)%Q.
    + apply Qmult_le_compat_r; [|apply Qlt_le_weak, pow2_pos].
      rewrite <- Zle_Qle; exact Hn.
    + apply Qle_trans with (inject_Z (2 ^ (prec - 1)) * 2 ^ (emax - prec))%Q.
      * rewrite <- (pow2_inject prec), <- (pow2_inject (prec - 1)) by lia.
        rewrite <- !pow2_plus; apply pow2_le; lia.
      * apply Qmult_le_compat_r; [|apply Qlt_le_weak, pow2_pos].
        rewrite <- Zle_Qle.
        assert (H2 : 2 ^ prec = 2 * 2 ^ (prec - 1)).
        { rewrite <- Z.pow_succ_r by lia; f_equal; lia. }
        assert (H1 : 0 < 2 ^ (prec - 1)) by (apply Z.pow_pos_nonneg; lia).
        lia.
Qed.

(** The number of units in the last place that a positive rational below
    [2 ^ (e + prec)] is rounded to. *)
Lemma round_half_even_units :
  forall (q : Q) (e : Z),
    (0 < q)%Q -> (q < 2 ^ (e + prec))%Q ->
    0 <= round_half_even (q / 2 ^ e) <= 2 ^ prec.
Proof.
  intros q e Hq Hlt; split.
  - apply round_half_even_ge.
    apply Qle_shift_div_l; [apply pow2_pos|].
    change (inject_Z 0) with 0%Q; rewrite Qmult_0_l.
    apply Qlt_le_weak; exact Hq.
  - apply round_half_even_le.
    rewrite <- (pow2_inject prec) by lia.
    apply Qle_shift_div_r; [apply pow2_pos|].
    rewrite <- pow2_plus, Z.add_comm.
    apply Qlt_le_weak; exact Hlt.
Qed.

(** A positive rational that does not overflow is rounded to a number
    between 0 and the largest finite one. *)
Lemma round_positive_le_largest :
  forall q r : Q,
    (0 < q)%Q ->
    round_positive prec emin emax q = Fin r ->
    (0 <= r)%Q /\ (r <= largest)%Q.
Proof.
  intros q r Hq; unfold round_positive.
  destruct (ulp_exponent prec fuel emin q) as [e|] eqn:He; [|discriminate].
  destruct (ulp_exponent_some prec fuel emin q e He) as (Hr & Hlt & _).
  rewrite fuel_range in Hr; cbv zeta.
  destruct (round_half_even_units q e Hq Hlt) as [Hn0 Hn1].
  destruct (Qle_bool (2 ^ emax)
              (inject_Z (round_half_even (q / 2 ^ e)) * 2 ^ e)) eqn:E;
    [discriminate|].
  apply Qle_bool_lt in E.
  intros Hfin.
  assert (Er : (r == inject_Z (round_half_even (q / 2 ^ e)) * 2 ^ e)%Q).
  { assert (Er : r = Qred (inject_Z (round_half_even (q / 2 ^ e)) * 2 ^ e))
      by congruence.
    rewrite Er; apply Qred_correct. }
  rewrite Er; split.
  - apply Qmult_le_0_compat; [|apply Qlt_le_weak, pow2_pos].
    change 0%Q with (inject_Z 0); rewrite <- Zle_Qle; exact Hn0.
  - apply multiple_le_largest; [lia | exact Hn1 | exact E].
Qed.

(** No finite result of the rounding lies beyond the largest finite number
    or its opposite. *)
Lemma round_nearest_even_le_largest :
  forall q r : Q,
    round_nearest_even prec emin emax q = Fin r ->
    (- largest <= r)%Q /\ (r <= largest)%Q.
Proof.
  intros q r Hq.
  assert (Hl : (0 <= largest)%Q).
  { apply Qmult_le_0_compat; [|apply Qlt_le_weak, pow2_pos].
    change 0%Q with (inject_Z 0); rewrite <- Zle_Qle.
    assert (H1 : 0 < 2 ^ prec) by (apply Z.pow_pos_nonneg; lia).
    lia. }
  destruct (round_nearest_even_sign q) as [E | [Hpos | Hneg]].
  - rewrite (round_nearest_even_ext q 0 E) in Hq.
    injection Hq as <-; split; lra.
  - rewrite (round_nearest_even_positive q Hpos) in Hq.
    destruct (round_positive_le_largest q r Hpos Hq) as [H0 H1].
    split; lra.
  - rewrite (round_nearest_even_negative q Hneg) in Hq.
    assert (Hpos : (0 < - q)%Q) by lra.
    destruct (round_positive prec emin emax (- q)) as [| | |s] eqn:Hs;
      try discriminate.
    assert (Er : r = Qred (- s)) by (cbn [vopp] in Hq; congruence).
    destruct (round_positive_le_largest (- q) s Hpos Hs) as [H0 H1].
    rewrite Er, Qred_correct; split; lra.
Qed.

(** A rational between the smallest positive number of the type and the
    largest finite one is rounded to a positive number of the type. *)
Lemma round_nearest_even_normal :
  forall q : Q,
    (2 ^ emin <= q)%Q -> (q <= largest)%Q ->
    exists r : Q,
      round_nearest_even prec emin emax q = Fin r /\ (0 < r)%Q.
Proof.
  intros q Hmin Hmax.
  assert (Hq : (0 < q)%Q)
    by (apply Qlt_le_trans with (2 ^ emin)%Q; [apply pow2_pos | exact Hmin]).
  rewrite (round_nearest_even_positive q Hq); unfold round_positive.
  destruct (ulp_exponent_found prec fuel emin q (emax - prec))
    as (e & He & Hle).
  { rewrite fuel_range; lia. }
  { replace (emax - prec + prec) with emax by lia.
    apply Qle_lt_trans with largest;
      [exact Hmax | exact largest_below_overflow]. }
  destruct (ulp_exponent_some prec fuel emin q e He) as (Hr & Hlt & Hprev).
  destruct (round_half_even_units q e Hq Hlt) as [_ Hn1].
  rewrite He; cbv zeta.
  assert (Hone : 1 <= round_half_even (q / 2 ^ e)).
  { apply round_half_even_ge.
    apply Qle_shift_div_l; [apply pow2_pos|].
    change (inject_Z 1) with 1%Q; rewrite Qmult_1_l.
    destruct (Z.eq_dec e emin) as [->|Hne]; [exact Hmin|].
    apply Qle_trans with (2 ^ (e - 1 + prec))%Q;
      [apply pow2_le; lia | apply Hprev; lia]. }
  assert (Hfin : (inject_Z (round_half_even (q / 2 ^ e)) * 2 ^ e
                  < 2 ^ emax)%Q).
  { destruct (Z.eq_dec e (emax - prec)) as [->|Hne].
    - apply Qle_lt_trans with largest; [|exact largest_below_overflow].
      apply Qmult_le_compat_r; [|apply Qlt_le_weak, pow2_pos].
      rewrite <- Zle_Qle; apply round_half_even_le.
      apply Qle_shift_div_r; [apply pow2_pos | exact Hmax].
    - apply Qle_lt_trans with (inject_Z (2 ^ prec) * 2 ^ e)%Q.
      + apply Qmult_le_compat_r; [|apply Qlt_le_weak, pow2_pos].
        rewrite <- Zle_Qle; exact Hn1.
      + rewrite <- (pow2_inject prec), <- pow2_plus by lia.
        apply Qpower_lt_compat_l; [lia | reflexivity]. }
  rewrite (Qle_bool_gt _ _ Hfin).
  eexists; split; [reflexivity|].
  rewrite Qred_correct.
  apply Qmult_lt_0_compat; [|apply pow2_pos].
  change 0%Q with (inject_Z 0); rewrite <- Zlt_Qlt; lia.
Qed.

End RoundNearestEven.

Theorem binary32_ieee : ieee_rounding binary32.
Proof. apply round_nearest_even_ieee; lia. Qed.

Theorem binary64_ieee : ieee_rounding binary64.
Proof. apply round_nearest_even_ieee; lia. Qed.

Theorem binary32_float32 : float32_rounding binary32.
Proof.
  split; [exact binary32_ieee|]; split; vm_compute; reflexivity.
Qed.

(** Every finite float32 lies between the largest finite float32 and its
    opposite. *)
Lemma binary32_le_max :
  forall q r : Q,
    binary32 q = Fin r -> (- FLT_MAX <= r)%Q /\ (r <= FLT_MAX)%Q.
Proof.
  intros q r Hq.
  destruct (round_nearest_even_le_largest 24 (-149) 128
              ltac:(lia) ltac:(lia) ltac:(lia) q r Hq) as [H0 H1].
  assert (E : (inject_Z (2 ^ 24 - 1) * 2 ^ (128 - 24) == FLT_MAX)%Q)
    by (vm_compute; reflexivity).
  rewrite E in H0, H1; split; assumption.
Qed.

(** A number from the smallest positive float32, [2 ^ -149], to the largest
    finite one is stored as a positive float32. *)
Lemma binary32_positive :
  forall q : Q,
    (2 ^ (-149) <= q)%Q -> (q <= FLT_MAX)%Q ->
    exists r : Q, binary32 q = Fin r /\ (0 < r)%Q.
Proof.
  intros q Hmin Hmax.
  apply (round_nearest_even_normal 24 (-149) 128);
    [lia | lia | lia | exact Hmin|].
  assert (E : (inject_Z (2 ^ 24 - 1) * 2 ^ (128 - 24) == FLT_MAX)%Q)
    by (vm_compute; reflexivity).
  rewrite E; exact Hmax.
Qed.

(** A number from the smallest positive float64, [2 ^ -1074], to the
    largest finite one is stored as a positive float64. *)
Lemma binary64_positive :
  forall q : Q,
    (2 ^ (-1074) <= q)%Q -> (q <= inject_Z (2 ^ 53 - 1) * 2 ^ 971)%Q ->
    exists r : Q, binary64 q = Fin r /\ (0 < r)%Q.
Proof.
  intros q Hmin Hmax.
  apply (round_nearest_even_normal 53 (-1074) 1024);
    [lia | lia | lia | exact Hmin | exact Hmax].
Qed.

(** A positive number below half of the smallest positive float32 is
    rounded to 0. *)
Example binary32_underflow :
  binary32 (1 # 10 ^ 50) = Fin 0 /\ binary32 (1 # 3) = Fin (11184811 # 33554432).
Proof. split; vm_compute; reflexivity. Qed.


(* ------------------------------------------------------------------ *)
(** ** The interpolation of the examples meets what the pipelines rely on *)

Lemma nearest_resize_length :
  forall img w h sh sw rest,
    shape img = sh :: sw :: rest -> well_shaped img ->
    well_shaped (nearest_resize img w h) /\
    shape (nearest_resize img w h) = h :: w :: rest.
Proof.
  intros img w h sh sw rest Hsh Hwf; unfold nearest_resize; rewrite Hsh.
  destruct (Nat.eqb_spec sh h) as [->|]; cbn [andb];
    [destruct (Nat.eqb_spec sw w) as [->|]; [split; assumption|]|];
    (split; [|reflexivity]);
    unfold well_shaped; cbn [shape data size_of fold_right];
    rewrite (flat_map_length_const _ _ _ (w * size_of rest)%nat), length_seq;
    try reflexivity;
    intros i;
    rewrite (flat_map_length_const _ _ _ (size_of rest)), length_seq;
    try reflexivity;
    intros j; rewrite length_map, length_seq; reflexivity.
Qed.

Lemma nearest_resize_gives_size : resize_gives_size nearest_resize.
Proof.
  intros img w h ((sh & sw & rest & Hsh & _) & _) Hwf.
  destruct (nearest_resize_length img w h sh sw rest Hsh Hwf) as [Hl Hs].
  split; [|exact Hl]; rewrite Hs, Hsh; reflexivity.
Qed.

Lemma nth_forallb :
  forall (p : fval -> bool) l d i,
    forallb p l = true -> p d = true -> p (nth i l d) = true.
Proof.
  intros p l d i Hl Hd.
  destruct (nth_in_or_default i l d) as [Hin | ->]; [|assumption].
  rewrite forallb_forall in Hl; auto.
Qed.

Lemma nearest_resize_keeps_finite : resize_keeps_finite nearest_resize.
Proof.
  intros img w h _ Hfin; unfold nearest_resize.
  destruct (shape img) as [|sh [|sw rest]]; try assumption.
  destruct (Nat.eqb sh h && Nat.eqb sw w)%bool; [assumption|].
  cbn [data]; apply forallb_forall; intros x Hx.
  apply in_flat_map in Hx as (i & _ & Hx).
  apply in_flat_map in Hx as (j & _ & Hx).
  apply in_map_iff in Hx as (k & <- & _).
  apply nth_forallb; [assumption | reflexivity].
Qed.

Lemma nearest_resize_same_size_copies : resize_same_size_copies nearest_resize.
Proof.
  intros img w h ((sh & sw & rest & Hsh & _) & _) Hsize.
  unfold nearest_resize; rewrite Hsh in *.
  injection Hsize as -> ->; rewrite !Nat.eqb_refl; reflexivity.
Qed.

(* ------------------------------------------------------------------ *)
(** ** What the two pipelines return *)

Lemma mul_pos_eqb :
  forall a b, (0 < a)%nat -> (0 < b)%nat -> Nat.eqb (a * b) 0 = false.
Proof. intros a b Ha Hb; apply Nat.eqb_neq; nia. Qed.

Lemma pos_eqb : forall a, (0 < a)%nat -> Nat.eqb a 0 = false.
Proof. intros a Ha; apply Nat.eqb_neq; lia. Qed.

Lemma cv2_resize_accepted :
  forall resize img w h,
    resize_accepts img w h ->
    cv2_resize resize img w h = Returned (resize img w h).
Proof.
  intros resize img w h ((sh & sw & rest & Hsh & Hrest & Hh & Hw) & Hw' & Hh').
  unfold cv2_resize; rewrite Hsh, (pos_eqb w Hw'), (pos_eqb h Hh').
  replace (Nat.eqb (size_of (sh :: sw :: rest)) 0) with false; [reflexivity|].
  symmetry; apply Nat.eqb_neq.
  destruct Hrest as [-> | ->]; cbn [size_of fold_right]; nia.
Qed.

Section Pipelines.

Variable resize : Resize.
Hypothesis resize_size : resize_gives_size resize.

Lemma process_img_msg_returns :
  forall img sh sw w h clip,
    shape img = [sh; sw; 3%nat] -> (0 < sh)%nat -> (0 < sw)%nat ->
    well_shaped img -> (0 < w)%nat -> (0 < h)%nat ->
    process_img_msg resize img w h clip
    = Returned
        (clip_and_normalize_image binary64
           (mk_image uint8
              (mk_ndarray [1%nat; h; w; 3%nat]
                 (data (resize (mk_ndarray [sh; sw; 3%nat]
                                           (bgr2rgb (data img))) w h))))
           clip) /\
    length (data (resize (mk_ndarray [sh; sw; 3%nat] (bgr2rgb (data img)))
                         w h))
    = (1 * (h * (w * 3)))%nat.
Proof.
  intros img sh sw w h clip Hsh Hh Hw Hwf Hw' Hh'.
  set (swapped := mk_ndarray [sh; sw; 3%nat] (bgr2rgb (data img))).
  assert (Hacc : resize_accepts swapped w h).
  { split; [|split; assumption].
    exists sh, sw, [3%nat]; repeat split; auto. }
  assert (Hwf' : well_shaped swapped).
  { unfold well_shaped, swapped; cbn [data shape].
    rewrite bgr2rgb_length, <- Hsh; exact Hwf. }
  destruct (resize_size swapped w h Hacc Hwf') as [Hs Hl].
  cbn [swapped shape skipn] in Hs.
  assert (Hlen : length (data (resize swapped w h)) = (1 * (h * (w * 3)))%nat).
  { rewrite Hl, Hs; cbn [size_of fold_right]; lia. }
  split; [|exact Hlen].
  unfold process_img_msg, process_img_array, cvtColor_BGR2RGB.
  cbn [dtype array]; rewrite Hsh, (mul_pos_eqb sh sw Hh Hw).
  cbn [Nat.eqb array dtype]; fold swapped.
  rewrite (cv2_resize_accepted resize swapped w h Hacc), Hs.
  unfold np_reshape.
  replace (size_of [1%nat; h; w; 3%nat])
    with (length (data (resize swapped w h)))
    by (rewrite Hlen; cbn [size_of fold_right]; lia).
  rewrite Nat.eqb_refl; reflexivity.
Qed.

Lemma process_depth_msg_returns :
  forall img sh sw w h clip,
    shape img = [sh; sw] -> (0 < sh)%nat -> (0 < sw)%nat ->
    well_shaped img -> (0 < w)%nat -> (0 < h)%nat ->
    process_depth_msg resize img w h clip
    = Returned
        (clip_and_normalize binary32
           (mk_ndarray [1%nat; h; w; 1%nat]
              (data (resize (np_nan_to_num (np_asarray_float binary32 img))
                            w h)))
           clip) /\
    length (data (resize (np_nan_to_num (np_asarray_float binary32 img)) w h))
    = (1 * (h * (w * 1)))%nat.
Proof.
  intros img sh sw w h clip Hsh Hh Hw Hwf Hw' Hh'.
  set (clean := np_nan_to_num (np_asarray_float binary32 img)).
  assert (Hshc : shape clean = [sh; sw]) by exact Hsh.
  assert (Hacc : resize_accepts clean w h).
  { split; [|split; assumption].
    exists sh, sw, []; repeat split; auto. }
  assert (Hwf' : well_shaped clean).
  { unfold well_shaped, clean; cbn [np_nan_to_num np_asarray_float data shape].
    rewrite !length_map; exact Hwf. }
  destruct (resize_size clean w h Hacc Hwf') as [Hs Hl].
  rewrite Hshc in Hs; cbn [skipn] in Hs.
  assert (Hlen : length (data (resize clean w h)) = (1 * (h * (w * 1)))%nat).
  { rewrite Hl, Hs; cbn [size_of fold_right]; lia. }
  split; [|exact Hlen].
  unfold process_depth_msg; cbv zeta; fold clean.
  rewrite (cv2_resize_accepted resize clean w h Hacc), Hs.
  unfold np_reshape.
  replace (size_of [1%nat; h; w; 1%nat])
    with (length (data (resize clean w h)))
    by (rewrite Hlen; cbn [size_of fold_right]; lia).
  rewrite Nat.eqb_refl; reflexivity.
Qed.

Lemma clip_and_normalize_shape :
  forall rnd img clip, shape (clip_and_normalize rnd img clip) = shape img.
Proof. intros rnd img [m|]; reflexivity. Qed.

Lemma clip_and_normalize_length :
  forall rnd img clip,
    length (data (clip_and_normalize rnd img clip)) = length (data img).
Proof.
  intros rnd img [m|]; [|reflexivity].
  cbn [clip_and_normalize np_divide np_clip data]; rewrite !length_map.
  reflexivity.
Qed.

Lemma clip_and_normalize_image_array :
  forall rnd img clip,
    array (clip_and_normalize_image rnd img clip)
    = clip_and_normalize rnd (array img) clip.
Proof. intros rnd img [m|]; reflexivity. Qed.

(** C9.  The observation space that [__init__] declares has the shape
    [[1, 240, 320, channels]] with 1 channel for depth only, 3 for RGB
    only and 4 for RGBD; with the default target size every colour frame
    is normalized to an array of shape [[1, 240, 320, 3]] and every depth
    frame to one of shape [[1, 240, 320, 1]], each holding as many values
    as its shape says, whatever the size [sh] by [sw] of the source. *)
Theorem observation_shapes :
  (observation_shape DEPTH_ONLY = [1; 240; 320; 1]%nat /\
   observation_shape RGB_ONLY = [1; 240; 320; 3]%nat /\
   observation_shape RGBD = [1; 240; 320; 4]%nat) /\
  (forall server fuel name resume channel_type now env,
     __init__ server fuel name resume channel_type now = Returned env ->
     observation_space env = observation_shape channel_type) /\
  (forall img sh sw clip,
     bgr8_frame img sh sw ->
     exists out,
       process_img_msg resize img IMG_W IMG_H clip = Returned out /\
       shape (array out) = [1; 240; 320; 3]%nat /\
       length (data (array out)) = (1 * 240 * 320 * 3)%nat) /\
  (forall img sh sw clip,
     depth_frame img sh sw ->
     exists out,
       process_depth_msg resize img IMG_W IMG_H clip = Returned out /\
       shape out = [1; 240; 320; 1]%nat /\
       length (data out) = (1 * 240 * 320 * 1)%nat).
Proof.
  assert (HW : (0 < IMG_W)%nat) by (unfold IMG_W; lia).
  assert (HH : (0 < IMG_H)%nat) by (unfold IMG_H; lia).
  split; [repeat split; reflexivity|].
  split.
  { intros server fuel name resume channel_type now env; unfold __init__.
    destruct (_initiate server name resume fuel [] now) as [[[u|e|] calls] t];
      try discriminate.
    intros [= <-]; reflexivity. }
  split.
  - intros img sh sw clip (Hsh & Hh & Hw & Hwf & _).
    destruct (process_img_msg_returns img sh sw IMG_W IMG_H clip
                Hsh Hh Hw Hwf HW HH) as [Hret Hlen].
    eexists; split; [exact Hret|].
    rewrite clip_and_normalize_image_array; cbn [array].
    rewrite clip_and_normalize_shape, clip_and_normalize_length.
    cbn [shape data]; split; [reflexivity|].
    rewrite Hlen; unfold IMG_H, IMG_W; lia.
  - intros img sh sw clip (Hsh & Hh & Hw & Hwf).
    destruct (process_depth_msg_returns img sh sw IMG_W IMG_H clip
                Hsh Hh Hw Hwf HW HH) as [Hret Hlen].
    eexists; split; [exact Hret|].
    rewrite clip_and_normalize_shape, clip_and_normalize_length.
    cbn [shape data]; split; [reflexivity|].
    rewrite Hlen; unfold IMG_H, IMG_W; lia.
Qed.

End Pipelines.
(* ------------------------------------------------------------------ *)
(** ** Clipping and dividing *)

Lemma Qeq_bool_pos : forall m : Q, (0 < m)%Q -> Qeq_bool m 0 = false.
Proof.
  intros m Hm; destruct (Qeq_bool m 0) eqn:E; [|reflexivity].
  apply Qeq_bool_iff in E; rewrite E in Hm.
  exfalso; exact (Qlt_irrefl 0 Hm).
Qed.

Lemma Qeq_bool_nonzero : forall m : Q, ~ (m == 0)%Q -> Qeq_bool m 0 = false.
Proof.
  intros m Hm; destruct (Qeq_bool m 0) eqn:E; [|reflexivity].
  apply Qeq_bool_iff in E; contradiction.
Qed.

Lemma in_unit_iff :
  forall r : Q, (0 <= r)%Q -> (r <= 1)%Q -> in_unit (Fin r) = true.
Proof.
  intros r H0 H1; unfold in_unit.
  apply andb_true_intro; split; apply Qle_bool_iff; assumption.
Qed.

(** A value that is not NaN, clipped to [[0, m]] for a positive [m], is a
    number between 0 and [m]: 0 for a value at or below 0, [m] for one at
    or above [m], the value itself between them. *)
Lemma clip_value_bounds :
  forall (m : Q) v,
    (0 < m)%Q -> is_nan v = false ->
    exists d : Q,
      clip_value (Fin 0) (Fin m) v = Fin d /\ (0 <= d)%Q /\ (d <= m)%Q /\
      forall p : Q, v = Fin p ->
        ((p <= 0)%Q -> (d == 0)%Q) /\
        ((0 <= p)%Q -> (p <= m)%Q -> (d == p)%Q) /\
        ((m <= p)%Q -> (d == m)%Q).
Proof.
  intros m v Hm Hv; unfold clip_value.
  assert (Hm0 : Qle_bool m 0 = false) by (apply Qle_bool_gt; exact Hm).
  assert (Hle : (0 <= m)%Q) by (apply Qlt_le_weak; exact Hm).
  destruct v as [| | |p]; try discriminate.
  - cbn [np_maximum np_minimum vle].
    exists m; repeat split; try assumption; try apply Qle_refl; discriminate.
  - cbn [np_maximum np_minimum vle]; rewrite Hm0.
    exists 0%Q; repeat split; try assumption; try apply Qle_refl; discriminate.
  - cbn [np_maximum vle].
    destruct (Qle_bool p 0) eqn:Ep.
    + apply Qle_bool_iff in Ep.
      cbn [np_minimum vle]; rewrite Hm0.
      exists 0%Q; split; [reflexivity|].
      split; [apply Qle_refl|]; split; [assumption|].
      intros p' [= <-]; split; [reflexivity|]; split.
      * intros H0 _; symmetry; apply Qle_antisym; assumption.
      * intros Hmp; exfalso.
        apply (Qlt_not_le _ _ Hm); apply (Qle_trans _ p); assumption.
    + apply Qle_bool_lt in Ep.
      cbn [np_minimum vle].
      destruct (Qle_bool m p) eqn:Emp.
      * apply Qle_bool_iff in Emp.
        exists m; split; [reflexivity|].
        split; [assumption|]; split; [apply Qle_refl|].
        intros p' [= <-]; split;
          [intros Hp; exfalso; exact (Qlt_not_le _ _ Ep Hp)|]; split.
        -- intros _ Hpm; apply Qle_antisym; assumption.
        -- reflexivity.
      * apply Qle_bool_lt in Emp.
        exists p; split; [reflexivity|].
        split; [apply Qlt_le_weak; assumption|].
        split; [apply Qlt_le_weak; assumption|].
        intros p' [= <-]; split;
          [intros Hp; exfalso; exact (Qlt_not_le _ _ Ep Hp)|]; split.
        -- reflexivity.
        -- intros Hmp; exfalso; exact (Qlt_not_le _ _ Emp Hmp).
Qed.

Section Roundings.

Variable rnd : Rounding.
Hypothesis rnd_laws : ieee_rounding rnd.

(** A value that is not NaN, clipped to [[0, m]] and divided by a positive
    [m] in the type, is a number of the type between 0 and 1; on a finite
    value [p] it is 0 for [p <= 0], 1 for [m <= p] and the rounded quotient
    between them. *)
Lemma clip_divide_fin :
  forall (m : Q) v,
    (0 < m)%Q -> is_nan v = false ->
    exists q : Q,
      clip_divide rnd (Fin m) v = Fin q /\
      (0 <= q)%Q /\ (q <= 1)%Q /\ rnd q = Fin q /\
      forall p : Q, v = Fin p ->
        ((p <= 0)%Q -> q = 0%Q) /\
        ((0 <= p)%Q -> (p <= m)%Q -> Fin q = rnd (p / m)%Q) /\
        ((m <= p)%Q -> q = 1%Q).
Proof.
  intros m v Hm Hv.
  destruct (clip_value_bounds m v Hm Hv) as (d & Hd & Hd0 & Hdm & Hcases).
  assert (Hne : ~ (m == 0)%Q) by (intros E; rewrite E in Hm; inversion Hm).
  assert (Hq0 : (0 <= d / m)%Q).
  { apply Qle_shift_div_l; [assumption|]; rewrite Qmult_0_l; assumption. }
  assert (Hq1 : (d / m <= 1)%Q).
  { apply Qle_shift_div_r; [assumption|]; rewrite Qmult_1_l; assumption. }
  destruct (rnd_unit rnd rnd_laws (d / m)%Q Hq0 Hq1) as (r & Hr & Hr0 & Hr1).
  assert (Hcd : clip_divide rnd (Fin m) v = rnd (d / m)%Q).
  { unfold clip_divide, vdiv_rounded; rewrite Hd; cbn [vdiv].
    rewrite (Qeq_bool_pos m Hm); reflexivity. }
  exists r; split; [rewrite Hcd; exact Hr|].
  split; [assumption|]; split; [assumption|].
  split; [exact (rnd_idem rnd rnd_laws _ _ Hr)|].
  intros p Hp; destruct (Hcases p Hp) as (Hlow & Hmid & Hhigh).
  split; [|split].
  - intros Hp0.
    assert (E : (d / m == 0)%Q) by (rewrite (Hlow Hp0); field; exact Hne).
    rewrite (rnd_ext rnd rnd_laws _ _ E), (rnd_zero rnd rnd_laws) in Hr.
    congruence.
  - intros Hp0 Hpm.
    assert (E : (d / m == p / m)%Q) by (rewrite (Hmid Hp0 Hpm); reflexivity).
    rewrite <- (rnd_ext rnd rnd_laws _ _ E); symmetry; exact Hr.
  - intros Hmp.
    assert (E : (d / m == 1)%Q) by (rewrite (Hhigh Hmp); field; exact Hne).
    rewrite (rnd_ext rnd rnd_laws _ _ E), (rnd_one rnd rnd_laws) in Hr.
    congruence.
Qed.

Lemma clip_divide_in_unit :
  forall (m : Q) v,
    (0 < m)%Q -> is_nan v = false ->
    in_unit (clip_divide rnd (Fin m) v) = true.
Proof.
  intros m v Hm Hv.
  destruct (clip_divide_fin m v Hm Hv) as (q & -> & H0 & H1 & _).
  apply in_unit_iff; assumption.
Qed.

(** Against a negative maximum every finite value is clipped to the maximum,
    and the quotient is 1. *)
Lemma clip_divide_negative :
  forall (m p : Q),
    (m < 0)%Q -> clip_divide rnd (Fin m) (Fin p) = Fin 1.
Proof.
  intros m p Hm.
  assert (Hne : ~ (m == 0)%Q) by (intros E; rewrite E in Hm; inversion Hm).
  assert (Hc : clip_value (Fin 0) (Fin m) (Fin p) = Fin m).
  { unfold clip_value; cbn [np_maximum vle].
    destruct (Qle_bool p 0) eqn:Ep; cbn [np_minimum vle].
    - replace (Qle_bool m 0) with true; [reflexivity|].
      symmetry; apply Qle_bool_iff, Qlt_le_weak; exact Hm.
    - apply Qle_bool_lt in Ep.
      replace (Qle_bool m p) with true; [reflexivity|].
      symmetry; apply Qle_bool_iff, Qlt_le_weak.
      apply (Qlt_trans _ 0); assumption. }
  unfold clip_divide, vdiv_rounded; rewrite Hc; cbn [vdiv].
  rewrite (Qeq_bool_nonzero m Hne); cbn [round_value].
  assert (E : (m / m == 1)%Q) by (field; exact Hne).
  rewrite (rnd_ext rnd rnd_laws _ _ E); apply (rnd_one rnd rnd_laws).
Qed.

Lemma clip_divide_finite :
  forall (m : Q) v,
    ~ (m == 0)%Q -> is_finite v = true ->
    is_finite (clip_divide rnd (Fin m) v) = true.
Proof.
  intros m v Hm Hv; destruct v as [| | |p]; try discriminate.
  destruct (Q_dec m 0) as [[Hlt | Hgt] | Heq]; [| |contradiction].
  - rewrite (clip_divide_negative m p Hlt); reflexivity.
  - destruct (clip_divide_fin m (Fin p) Hgt eq_refl) as (q & -> & _).
    reflexivity.
Qed.

(** Clipping to [[0, 1]] and dividing by 1 leaves a number of the type
    between 0 and 1 as it is. *)
Lemma clip_divide_one_fixed :
  forall q : Q,
    (0 <= q)%Q -> (q <= 1)%Q -> rnd q = Fin q ->
    clip_divide rnd (Fin 1) (Fin q) = Fin q.
Proof.
  intros q H0 H1 Hq.
  assert (Hm : (0 < 1)%Q) by reflexivity.
  destruct (clip_divide_fin 1 (Fin q) Hm eq_refl)
    as (r & Hr & _ & _ & _ & Hcases).
  destruct (Hcases q eq_refl) as (_ & Hmid & _).
  rewrite Hr, (Hmid H0 H1).
  assert (E : (q / 1 == q)%Q) by (field; discriminate).
  rewrite (rnd_ext rnd rnd_laws _ _ E); exact Hq.
Qed.

Lemma clip_and_normalize_some :
  forall sh d (m : Q) m',
    rnd m = Fin m' ->
    clip_and_normalize rnd (mk_ndarray sh d) (Some (Fin m))
    = mk_ndarray sh (map (clip_divide rnd (Fin m')) d).
Proof.
  intros sh d m m' Hm; unfold clip_and_normalize, np_divide, np_clip.
  cbn [shape data round_value]; rewrite Hm, map_map; reflexivity.
Qed.

End Roundings.

Lemma is_finite_not_nan : forall v, is_finite v = true -> is_nan v = false.
Proof. destruct v; simpl; auto; discriminate. Qed.

Lemma nan_to_num_finite :
  forall l, forallb is_finite (map nan_to_num_value l) = true.
Proof. intros l; apply forallb_map_all; destruct v; reflexivity. Qed.

Lemma bgr8_frame_swapped_finite :
  forall img sh sw,
    bgr8_frame img sh sw ->
    forallb is_finite (bgr2rgb (data img)) = true.
Proof.
  intros img sh sw (_ & _ & _ & _ & Hu8).
  apply bgr2rgb_forallb.
  apply (forallb_impl is_uint8); [apply is_uint8_finite | assumption].
Qed.

Lemma resize_accepts_colour :
  forall sh sw d w h,
    (0 < sh)%nat -> (0 < sw)%nat -> (0 < w)%nat -> (0 < h)%nat ->
    resize_accepts (mk_ndarray [sh; sw; 3%nat] d) w h.
Proof.
  intros sh sw d w h Hh Hw Hw' Hh'; split; [|split; assumption].
  exists sh, sw, [3%nat]; repeat split; auto.
Qed.

Lemma resize_accepts_depth :
  forall img sh sw w h,
    shape img = [sh; sw] ->
    (0 < sh)%nat -> (0 < sw)%nat -> (0 < w)%nat -> (0 < h)%nat ->
    resize_accepts img w h.
Proof.
  intros img sh sw w h Hsh Hh Hw Hw' Hh'; split; [|split; assumption].
  exists sh, sw, []; repeat split; auto.
Qed.

Section ClipAndNormalize.

Variable resize : Resize.
Hypothesis resize_size : resize_gives_size resize.
Hypothesis resize_finite : resize_keeps_finite resize.


End ClipAndNormalize.

Lemma blue_pixel_is_frame : bgr8_frame blue_pixel 1 1.
Proof. repeat split; auto with arith. Qed.

Lemma grey_pixel_is_frame : bgr8_frame grey_pixel 1 1.
Proof. repeat split; auto with arith. Qed.

Lemma infinite_depth_pixel_is_frame : depth_frame infinite_depth_pixel 1 1.
Proof. repeat split; auto with arith. Qed.

Lemma binary64_255 : binary64 255%Q = Fin 255.
Proof. vm_compute; reflexivity. Qed.

Lemma binary32_10 : binary32 10%Q = Fin 10.
Proof. vm_compute; reflexivity. Qed.



(* ------------------------------------------------------------------ *)
(** ** Depth frames: NaN and the infinities *)

Section DepthFrames.

Variable resize : Resize.
Hypothesis resize_size : resize_gives_size resize.
Hypothesis resize_finite : resize_keeps_finite resize.


End DepthFrames.



(* ------------------------------------------------------------------ *)
(** ** A second pass of the colour pipeline *)

Section SecondPass.

Variable resize : Resize.
Hypothesis resize_copy : resize_same_size_copies resize.

Lemma process_img_array_sized :
  forall a w h clip,
    shape a = [h; w; 3%nat] -> well_shaped a ->
    (0 < h)%nat -> (0 < w)%nat ->
    process_img_array resize (mk_image uint8 a) w h clip
    = Returned (clip_and_normalize_image binary64
                  (mk_image uint8
                     (mk_ndarray [1%nat; h; w; 3%nat] (bgr2rgb (data a))))
                  clip).
Proof.
  intros a w h clip Hsh Hwf Hh Hw.
  set (swapped := mk_ndarray [h; w; 3%nat] (bgr2rgb (data a))).
  assert (Hacc : resize_accepts swapped w h)
    by (apply resize_accepts_colour; assumption).
  unfold process_img_array, cvtColor_BGR2RGB.
  cbn [dtype array]; rewrite Hsh, (mul_pos_eqb h w Hh Hw).
  cbn [Nat.eqb array dtype]; fold swapped.
  rewrite (cv2_resize_accepted resize swapped w h Hacc).
  rewrite (resize_copy swapped w h Hacc eq_refl).
  unfold np_reshape, swapped; cbn [shape data].
  replace (length (bgr2rgb (data a))) with (size_of [1%nat; h; w; 3%nat]).
  - rewrite Nat.eqb_refl; reflexivity.
  - rewrite bgr2rgb_length, Hwf, Hsh; cbn [size_of fold_right]; lia.
Qed.

(** A pass with a [clipMax] returns a float64 array, which the colour
    conversion of the next pass refuses. *)
Lemma second_pass_after_clip_raises :
  forall img w h m,
    bgr8_frame img h w ->
    exists out,
      process_img_msg resize img w h (Some m) = Returned out /\
      dtype out = float64 /\
      forall w' h' clip,
        process_img_array resize (first_image_of_batch out) w' h' clip
        = Raised (Cv2Error "Unsupported depth of input image").
Proof.
  intros img w h m (Hsh & Hh & Hw & Hwf & _).
  eexists; split;
    [unfold process_img_msg; apply process_img_array_sized; assumption|].
  split; reflexivity.
Qed.


End SecondPass.



(* ------------------------------------------------------------------ *)
(** ** The shapes of the observations, on an example *)

Lemma observation_shapes_witness :
  resize_gives_size nearest_resize /\
  __init__ accepting_server 1 "test-1" false RGBD 0
    = Returned (fresh_env RGBD) /\
  observation_space (fresh_env RGBD) = [1; 240; 320; 4]%nat /\
  bgr8_frame blue_pixel 1 1 /\
  depth_frame infinite_depth_pixel 1 1 /\
  (exists out,
     process_img_msg nearest_resize blue_pixel IMG_W IMG_H None
       = Returned out /\
     shape (array out) = [1; 240; 320; 3]%nat /\
     length (data (array out)) = (1 * 240 * 320 * 3)%nat) /\
  (exists out,
     process_depth_msg nearest_resize infinite_depth_pixel IMG_W IMG_H None
       = Returned out /\
     shape out = [1; 240; 320; 1]%nat /\
     length (data out) = (1 * 240 * 320 * 1)%nat).
Proof.
  assert (Hinit : __init__ accepting_server 1 "test-1" false RGBD 0
                  = Returned (fresh_env RGBD)) by reflexivity.
  destruct (observation_shapes nearest_resize nearest_resize_gives_size)
    as ((_ & _ & Hrgbd) & Hspace & Himg & Hdepth).
  split; [exact nearest_resize_gives_size|].
  split; [exact Hinit|].
  split; [rewrite (Hspace _ _ _ _ _ _ _ Hinit); exact Hrgbd|].
  split; [exact blue_pixel_is_frame|].
  split; [exact infinite_depth_pixel_is_frame|].
  split.
  - exact (Himg blue_pixel 1%nat 1%nat None blue_pixel_is_frame).
  - exact (Hdepth infinite_depth_pixel 1%nat 1%nat None
                  infinite_depth_pixel_is_frame).
Defined.
(* ================================================================== *)
(** * Further properties of the code *)

(* ------------------------------------------------------------------ *)
(** ** The handshake against any server *)

Lemma repeat_snoc :
  forall (A : Type) (x : A) n, repeat x n ++ [x] = x :: repeat x n.
Proof.
  intros A x n; induction n as [|n IH]; [reflexivity|].
  cbn [repeat app]; rewrite IH; reflexivity.
Qed.

Lemma app_repeat_succ :
  forall (A : Type) (l : list A) x n,
    (l ++ [x]) ++ repeat x n = l ++ repeat x (S n).
Proof. intros A l x n; rewrite <- app_assoc; reflexivity. Qed.

Lemma initiate_loop_calls :
  forall server name resume wait_start fuel calls now,
    exists n,
      (n <= fuel)%nat /\
      snd (fst (_initiate_loop server name resume wait_start fuel calls now))
      = calls ++ repeat (PerformHandshake name resume) n /\
      (fst (fst (_initiate_loop server name resume wait_start fuel calls now))
       = Polling -> n = fuel) /\
      (fst (fst (_initiate_loop server name resume wait_start fuel calls now))
       <> Polling -> (1 <= n)%nat).
Proof.
  intros server name resume wait_start fuel.
  induction fuel as [|fuel IH]; intros calls now.
  - exists 0%nat; cbn [_initiate_loop fst snd repeat].
    rewrite app_nil_r; repeat split; auto; intros H; contradiction H;
      reflexivity.
  - cbn [_initiate_loop].
    destruct (on_handshake server calls name resume) as [reply took].
    pose proof (handshake_branch_never_falls_through reply) as Hft.
    destruct (handshake_branch reply) as [| |e|].
    + destruct (IH (calls ++ [PerformHandshake name resume])
                   (now + took)%Q) as (n & Hn & Hc & Hp & Hq).
      exists (S n); rewrite Hc, app_repeat_succ.
      split; [lia|]; split; [reflexivity|].
      split; [intros H; rewrite (Hp H); reflexivity | intros _; lia].
    + exists 1%nat; cbn [fst snd repeat].
      split; [lia|]; split; [reflexivity|].
      split; [discriminate | intros _; lia].
    + exists 1%nat; cbn [fst snd repeat].
      split; [lia|]; split; [reflexivity|].
      split; [discriminate | intros _; lia].
    + contradiction Hft; reflexivity.
Qed.

Lemma initiate_only_handshakes_aux :
  forall server name resume fuel now,
    exists n,
      (n <= fuel)%nat /\
      snd (fst (_initiate server name resume fuel [] now))
      = repeat (PerformHandshake name resume) n /\
      (fst (fst (_initiate server name resume fuel [] now)) <> Polling ->
       (1 <= n)%nat).
Proof.
  intros server name resume fuel now; unfold _initiate.
  destruct (initiate_loop_calls server name resume now fuel [] now)
    as (n & Hn & Hc & _ & Hq).
  exists n; repeat split; assumption.
Qed.

(** X1.  Whatever the server answers, [_initiate] calls the bridge for
    handshakes only, each with the name of the experiment and the resume
    flag it was given: the calls made before are kept and at most one
    handshake per round is added; when it returns or raises, at least one
    handshake has been made. *)
Theorem initiate_only_handshakes :
  forall server name resume fuel calls now,
    exists n,
      (n <= fuel)%nat /\
      snd (fst (_initiate server name resume fuel calls now))
      = calls ++ repeat (PerformHandshake name resume) n /\
      (fst (fst (_initiate server name resume fuel calls now)) = Polling ->
       n = fuel) /\
      (fst (fst (_initiate server name resume fuel calls now)) <> Polling ->
       (1 <= n)%nat).
Proof.
  intros server name resume fuel calls now; unfold _initiate.
  apply initiate_loop_calls.
Qed.

Lemma initiate_loop_first_answer :
  forall server name resume wait_start k fuel calls now reply took h,
    (forall j, (j < k)%nat ->
       heartbeat (fst (on_handshake server
                         (calls ++ repeat (PerformHandshake name resume) j)
                         name resume)) = None) ->
    on_handshake server (calls ++ repeat (PerformHandshake name resume) k)
                 name resume = (reply, took) ->
    heartbeat reply = Some h ->
    (k < fuel)%nat ->
    fst (_initiate_loop server name resume wait_start fuel calls now)
    = (match handshake_branch reply with
       | Raise e => Raised e
       | _ => Returned tt
       end,
       calls ++ repeat (PerformHandshake name resume) (S k)).
Proof.
  intros server name resume wait_start k.
  induction k as [|k IH]; intros fuel calls now reply took h Hsil Hans Hh Hk.
  - destruct fuel as [|fuel]; [lia|].
    cbn [repeat] in Hans; rewrite app_nil_r in Hans.
    cbn [_initiate_loop]; rewrite Hans.
    unfold handshake_branch; rewrite Hh.
    destruct (is_running h && registered reply)%bool; [reflexivity|].
    destruct (is_running h && negb (registered reply))%bool; reflexivity.
  - destruct fuel as [|fuel]; [lia|].
    cbn [_initiate_loop].
    pose proof (Hsil 0%nat ltac:(lia)) as H0.
    cbn [repeat] in H0; rewrite app_nil_r in H0.
    destruct (on_handshake server calls name resume) as [r0 t0].
    cbn [fst] in H0; unfold handshake_branch at 1; rewrite H0.
    rewrite (IH fuel (calls ++ [PerformHandshake name resume])
                (now + t0)%Q reply took h).
    + rewrite app_repeat_succ; reflexivity.
    + intros j Hj; rewrite app_repeat_succ; apply Hsil; lia.
    + rewrite app_repeat_succ; exact Hans.
    + exact Hh.
    + lia.
Qed.

(** X2.  The first handshake that is answered decides, however many went
    unanswered before it: when the first [k] polls bring no heartbeat and
    the next one brings a status, then with more than [k] rounds
    [_initiate] returns if the status is running and the registration is
    acknowledged, raises a [GymException] with the message of the server
    if it is running and not acknowledged, and raises "Gym server is not
    ready." for any other status; the bridge has been called [k + 1]
    times. *)
Theorem initiate_first_answer_decides :
  forall server name resume k fuel calls now reply took h,
    (forall j, (j < k)%nat ->
       heartbeat (fst (on_handshake server
                         (calls ++ repeat (PerformHandshake name resume) j)
                         name resume)) = None) ->
    on_handshake server (calls ++ repeat (PerformHandshake name resume) k)
                 name resume = (reply, took) ->
    heartbeat reply = Some h ->
    (k < fuel)%nat ->
    fst (_initiate server name resume fuel calls now)
    = (if is_running h
       then if registered reply then Returned tt
            else Raised (GymException (message reply))
       else Raised (GymException "Gym server is not ready."),
       calls ++ repeat (PerformHandshake name resume) (S k)).
Proof.
  intros server name resume k fuel calls now reply took h Hsil Hans Hh Hk.
  unfold _initiate.
  rewrite (initiate_loop_first_answer server name resume now k fuel calls now
             reply took h Hsil Hans Hh Hk).
  unfold handshake_branch; rewrite Hh.
  destruct (is_running h), (registered reply); reflexivity.
Qed.

Lemma initiate_first_answer_decides_witness :
  (forall j, (j < 3)%nat ->
     heartbeat (fst (on_handshake (late_server 3)
                       ([] ++ repeat (PerformHandshake "test-1" false) j)
                       "test-1" false)) = None) /\
  (3 < 10)%nat /\
  fst (_initiate (late_server 3) "test-1" false 10 [] 0)
  = (Returned tt, repeat (PerformHandshake "test-1" false) 4).
Proof.
  assert (Hsil : forall j, (j < 3)%nat ->
     heartbeat (fst (on_handshake (late_server 3)
                       ([] ++ repeat (PerformHandshake "test-1" false) j)
                       "test-1" false)) = None).
  { intros j Hj.
    destruct j as [|[|[|j]]]; [reflexivity | reflexivity | reflexivity | lia]. }
  assert (Hk : (3 < 10)%nat) by lia.
  split; [exact Hsil|]; split; [exact Hk|].
  exact (initiate_first_answer_decides (late_server 3) "test-1" false 3 10 []
           0%Q (mk_reply (Some STATUS_RUNNING) true "ok") 1%Q STATUS_RUNNING
           Hsil eq_refl eq_refl Hk).
Defined.

(* ------------------------------------------------------------------ *)
(** ** [__init__] *)

(** X3.  An environment that [__init__] hands back starts at step 0 with
    no last state, has the action space of size 4, the channel type, the
    name and the resume flag it was built with, and the only calls made on
    its bridge are handshakes, at least one.  When the handshake raises,
    [__init__] raises the same exception and no environment is built. *)
Theorem init_builds_fresh_environment :
  forall server fuel name resume channel_type now,
    (forall env,
       __init__ server fuel name resume channel_type now = Returned env ->
       step_count env = 0 /\ _last_state env = None /\
       action_space env = 4 /\ _channel_type env = channel_type /\
       experiment_name env = name /\ resume_experiment env = resume /\
       exists n, (1 <= n <= fuel)%nat /\
                 bridge_calls env = repeat (PerformHandshake name resume) n) /\
    (forall e,
       fst (fst (_initiate server name resume fuel [] now)) = Raised e ->
       __init__ server fuel name resume channel_type now = Raised e).
Proof.
  intros server fuel name resume channel_type now; split.
  - intros env; unfold __init__.
    destruct (initiate_only_handshakes_aux server name resume fuel now)
      as (n & Hn & Hc & Hq).
    destruct (_initiate server name resume fuel [] now) as [[out calls] t].
    cbn [fst snd] in Hc, Hq.
    destruct out as [u|e|]; try discriminate.
    intros [= <-]; cbn [step_count _last_state action_space _channel_type
                        experiment_name resume_experiment bridge_calls].
    repeat split; try reflexivity.
    exists n; split; [|exact Hc].
    split; [apply Hq; discriminate | exact Hn].
  - intros e; unfold __init__.
    destruct (_initiate server name resume fuel [] now) as [[out calls] t].
    cbn [fst]; intros ->; reflexivity.
Qed.

Lemma init_builds_fresh_environment_witness :
  __init__ accepting_server 5 "test-1" false RGBD 0
    = Returned (fresh_env RGBD) /\
  step_count (fresh_env RGBD) = 0 /\
  exists n, (1 <= n <= 5)%nat /\
            bridge_calls (fresh_env RGBD)
            = repeat (PerformHandshake "test-1" false) n.
Proof.
  assert (H : __init__ accepting_server 5 "test-1" false RGBD 0
              = Returned (fresh_env RGBD)) by reflexivity.
  destruct (init_builds_fresh_environment accepting_server 5 "test-1" false
              RGBD 0%Q) as [Hok _].
  destruct (Hok (fresh_env RGBD) H) as (Hc & _ & _ & _ & _ & _ & Hcalls).
  split; [exact H|]; split; [exact Hc | exact Hcalls].
Defined.

Lemma enum_call_in_range :
  forall z, 0 <= z < 4 ->
            exists a, FourDiscreteMotionActions_call z = Returned a.
Proof.
  intros z Hz.
  assert (Hc : z = 0 \/ z = 1 \/ z = 2 \/ z = 3) by lia.
  destruct Hc as [-> | [-> | [-> | ->]]]; eexists; reflexivity.
Qed.

Lemma valid_int_iff :
  forall z, valid_action (PyInt z) = true <-> 0 <= z < 4.
Proof.
  intros z; unfold valid_action.
  rewrite decode_action_int by reflexivity; cbn [int_value].
  destruct (Z.leb_spec 0 z) as [H0|H0]; cbn [andb].
  - destruct (Z.ltb_spec z 4) as [H4|H4].
    + destruct (enum_call_in_range z (conj H0 H4)) as [a ->].
      split; [intros _; lia | reflexivity].
    + split; [discriminate | lia].
  - split; [discriminate | lia].
Qed.

(** X4.  The integers that [step] accepts as an action are the members of
    the action space that [__init__] declares: an integer [z] is accepted
    exactly when [0 <= z < action_space]. *)
Theorem action_space_is_what_step_accepts :
  forall server fuel name resume channel_type now env z,
    __init__ server fuel name resume channel_type now = Returned env ->
    (valid_action (PyInt z) = true <-> 0 <= z < action_space env).
Proof.
  intros server fuel name resume channel_type now env z; unfold __init__.
  destruct (_initiate server name resume fuel [] now) as [[[u|e|] calls] t];
    try discriminate.
  intros [= <-]; cbn [action_space]; apply valid_int_iff.
Qed.

Lemma action_space_is_what_step_accepts_witness :
  __init__ accepting_server 1 "test-1" false RGB_ONLY 0
    = Returned (fresh_env RGB_ONLY) /\
  (valid_action (PyInt 4) = true <-> 0 <= 4 < action_space (fresh_env RGB_ONLY)).
Proof.
  split; [reflexivity|].
  apply (action_space_is_what_step_accepts accepting_server 1 "test-1" false
           RGB_ONLY 0%Q (fresh_env RGB_ONLY) 4).
  reflexivity.
Defined.

(* ------------------------------------------------------------------ *)
(** ** Runs of [step] against any backend *)

Lemma step_accepted :
  forall server env v a,
    decode_action v = Returned a ->
    let r := on_action server (bridge_calls env) a (_channel_type env) in
    let dn := if step_count env + 1 =? 100 then true else snd r in
    step server env v
    = (Returned (mk_result (fst (fst r)) (snd (fst r)) dn []),
       mk_env (experiment_name env) (resume_experiment env)
              (_channel_type env) (observation_space env) (action_space env)
              (if dn then 0 else step_count env + 1)
              (Some (fst (fst r)))
              (bridge_calls env ++ [PerformAction a (_channel_type env)])).
Proof.
  intros server env v a Hd; cbv zeta; unfold step; rewrite Hd.
  unfold set_step_count at 1 2;
    cbn [bridge_calls _channel_type].
  destruct (on_action server (bridge_calls env) a (_channel_type env))
    as [[st rw] dn].
  unfold _EPISODE_LENGTH, record_call, set_last_state, set_step_count.
  cbn [fst snd step_count experiment_name resume_experiment _channel_type
       observation_space action_space _last_state bridge_calls].
  destruct (if step_count env + 1 =? 100 then true else dn); reflexivity.
Qed.

Lemma step_outcome_cases :
  forall v, (exists a, decode_action v = Returned a)
            \/ (exists e, decode_action v = Raised e).
Proof.
  intros v; destruct (decode_action v) as [a|e|] eqn:Hd.
  - left; exists a; reflexivity.
  - right; exists e; reflexivity.
  - exfalso; exact (decode_action_not_polling v Hd).
Qed.

(** X5.  Over any run of [step] calls, against any backend, the bridge is
    called once for every accepted action, in order, with the decoded action
    and the channel type of the environment, and never for a rejected one;
    the channel type, the spaces, the name and the resume flag of the
    environment are the ones from before the run. *)
Theorem run_calls_backend_once_per_accepted_action :
  forall server actions env,
    bridge_calls (snd (run_steps server env actions))
    = bridge_calls env
      ++ map (fun a => PerformAction a (_channel_type env))
             (accepted_actions actions) /\
    _channel_type (snd (run_steps server env actions)) = _channel_type env /\
    observation_space (snd (run_steps server env actions))
    = observation_space env /\
    action_space (snd (run_steps server env actions)) = action_space env /\
    experiment_name (snd (run_steps server env actions))
    = experiment_name env /\
    resume_experiment (snd (run_steps server env actions))
    = resume_experiment env.
Proof.
  intros server actions; induction actions as [|v rest IH]; intros env.
  - cbn [run_steps snd accepted_actions flat_map map].
    rewrite app_nil_r; repeat split; reflexivity.
  - cbn [run_steps].
    destruct (step server env v) as [r env1] eqn:Hs.
    specialize (IH env1).
    destruct (run_steps server env1 rest) as [rs env2].
    cbn [snd] in *.
    destruct IH as (Hc & Hch & Ho & Ha & Hn & Hr).
    unfold accepted_actions; cbn [flat_map]; fold (accepted_actions rest).
    destruct (step_outcome_cases v) as [[a Hd] | [e Hd]].
    + rewrite (step_accepted server env v a Hd) in Hs; cbv zeta in Hs.
      injection Hs as _ <-.
      cbn [bridge_calls _channel_type observation_space action_space
           experiment_name resume_experiment] in *.
      rewrite Hd, Hc, <- app_assoc.
      repeat split; assumption || reflexivity.
    + rewrite (step_rejected server env v e Hd) in Hs.
      injection Hs as _ <-.
      cbn [set_step_count bridge_calls _channel_type observation_space
           action_space experiment_name resume_experiment] in *.
      rewrite Hd, Hc.
      repeat split; assumption || reflexivity.
Qed.

Lemma step_accepted_not_done :
  forall server env v,
    valid_action v = true ->
    done_of (fst (step server env v)) = Some false ->
    step_count env + 1 <> 100 /\
    step_count (snd (step server env v)) = step_count env + 1.
Proof.
  intros server env v Hv Hd; unfold valid_action in Hv.
  destruct (decode_action v) as [a| |] eqn:Ha; try discriminate.
  rewrite (step_accepted server env v a Ha) in *; cbv zeta in *.
  cbn [fst snd done_of done step_count] in *.
  destruct (Z.eqb_spec (step_count env + 1) 100) as [E|E];
    [discriminate|].
  injection Hd as Hd; rewrite Hd; split; [assumption | reflexivity].
Qed.

(** X6.  The cap holds against any backend: in a run of accepted steps that
    starts with the counter [c] between 0 and 99, if no step returns a true
    flag then the run is shorter than [100 - c] steps, and the counter has
    gone up by one per step. *)
Theorem run_without_done_is_short :
  forall server actions env,
    0 <= step_count env < 100 ->
    forallb valid_action actions = true ->
    Forall (fun r => done_of r = Some false)
           (fst (run_steps server env actions)) ->
    step_count env + Z.of_nat (length actions) < 100 /\
    step_count (snd (run_steps server env actions))
    = step_count env + Z.of_nat (length actions).
Proof.
  intros server actions; induction actions as [|v rest IH];
    intros env Hc Hall Hnd.
  - cbn [run_steps snd length]; lia.
  - cbn [forallb] in Hall; apply andb_prop in Hall as [Hv Hrest].
    cbn [run_steps] in *.
    destruct (step server env v) as [r env1] eqn:Hs.
    assert (Hr : step_count env + 1 <> 100 /\
                 step_count env1 = step_count env + 1).
    { pose proof (step_accepted_not_done server env v Hv) as H.
      rewrite Hs in H; cbn [fst snd] in H; apply H.
      destruct (run_steps server env1 rest); cbn [fst] in Hnd.
      inversion Hnd; assumption. }
    destruct Hr as [Hne Hc1].
    specialize (IH env1).
    destruct (run_steps server env1 rest) as [rs env2].
    cbn [fst snd length] in *.
    inversion Hnd as [|? ? _ Hrs]; subst.
    destruct (IH ltac:(lia) Hrest Hrs) as [Hlt Hcount].
    rewrite Hcount, Hc1; lia.
Qed.

Lemma run_without_done_is_short_witness :
  0 <= step_count (fresh_env RGB_ONLY) < 100 /\
  forallb valid_action (repeat (PyInt 2) 7) = true /\
  Forall (fun r => done_of r = Some false)
         (fst (run_steps accepting_server (fresh_env RGB_ONLY)
                 (repeat (PyInt 2) 7))) /\
  step_count (snd (run_steps accepting_server (fresh_env RGB_ONLY)
                     (repeat (PyInt 2) 7))) = 7.
Proof.
  assert (Hc : 0 <= step_count (fresh_env RGB_ONLY) < 100)
    by (cbn; lia).
  assert (Hnd : Forall (fun r => done_of r = Some false)
                  (fst (run_steps accepting_server (fresh_env RGB_ONLY)
                          (repeat (PyInt 2) 7))))
    by (vm_compute; repeat constructor).
  split; [exact Hc|]; split; [reflexivity|]; split; [exact Hnd|].
  destruct (run_without_done_is_short accepting_server (repeat (PyInt 2) 7)
              (fresh_env RGB_ONLY) Hc eq_refl Hnd) as [_ H].
  rewrite H; reflexivity.
Defined.

Section QuietBackend.

Variable server : Server.

Hypothesis backend_never_done :
  forall calls a c, snd (on_action server calls a c) = false.

Lemma step_quiet :
  forall env v,
    step_count env + 1 <> 100 ->
    step_count (snd (step server env v)) = step_count env + 1 /\
    done_of (fst (step server env v)) <> Some true.
Proof.
  intros env v Hne.
  destruct (step_outcome_cases v) as [[a Hd] | [e Hd]].
  - rewrite (step_accepted server env v a Hd); cbv zeta.
    rewrite backend_never_done.
    destruct (Z.eqb_spec (step_count env + 1) 100) as [E|E];
      [contradiction|].
    cbn [fst snd step_count done_of done]; split;
      [reflexivity | discriminate].
  - rewrite (step_rejected server env v e Hd).
    cbn [fst snd set_step_count step_count done_of]; split;
      [reflexivity | discriminate].
Qed.

Lemma run_quiet :
  forall actions env,
    (forall k, (k < length actions)%nat ->
               step_count env + Z.of_nat k + 1 <> 100) ->
    step_count (snd (run_steps server env actions))
    = step_count env + Z.of_nat (length actions) /\
    Forall (fun r => done_of r <> Some true)
           (fst (run_steps server env actions)).
Proof.
  induction actions as [|v rest IH]; intros env Hk.
  - cbn [run_steps fst snd length]; split; [lia | constructor].
  - cbn [run_steps].
    destruct (step_quiet env v) as [Hc Hd].
    { specialize (Hk 0%nat); cbn [length] in Hk.
      rewrite Z.add_0_r in Hk; apply Hk; lia. }
    destruct (step server env v) as [r env1].
    cbn [fst snd] in Hc, Hd.
    destruct (IH env1) as [IHc IHd].
    { intros k Hlt; rewrite Hc.
      specialize (Hk (S k)); cbn [length] in Hk.
      rewrite Nat2Z.inj_succ in Hk.
      replace (step_count env + 1 + Z.of_nat k + 1)
        with (step_count env + Z.succ (Z.of_nat k) + 1) by lia.
      apply Hk; lia. }
    destruct (run_steps server env1 rest) as [rs env2].
    cbn [fst snd length] in *.
    split; [rewrite IHc, Hc; lia | constructor; assumption].
Qed.

(** X7.  Once the counter stands at 100 or more the cap never fires again:
    against a backend that never reports the end of the episode, every
    later step returns a false flag, however many there are, and the
    counter keeps growing by one per call.  (The counter gets there when
    the 100th call of an episode is rejected for its action.) *)
Theorem cap_is_missed_past_100 :
  forall env actions,
    100 <= step_count env ->
    forallb valid_action actions = true ->
    map done_of (fst (run_steps server env actions))
    = repeat (Some false) (length actions) /\
    step_count (snd (run_steps server env actions))
    = step_count env + Z.of_nat (length actions).
Proof.
  intros env actions; revert env.
  induction actions as [|v rest IH]; intros env Hc Hall.
  - cbn [run_steps fst snd map length repeat]; split; [reflexivity | lia].
  - cbn [forallb] in Hall; apply andb_prop in Hall as [Hv Hrest].
    unfold valid_action in Hv.
    destruct (decode_action v) as [a| |] eqn:Hd; try discriminate.
    cbn [run_steps]; rewrite (step_accepted server env v a Hd); cbv zeta.
    rewrite backend_never_done.
    destruct (Z.eqb_spec (step_count env + 1) 100) as [E|E]; [lia|].
    match goal with
    | |- context [run_steps server ?e rest] =>
        destruct (IH e) as [IHf IHc];
          [cbn [step_count]; lia | exact Hrest |];
          destruct (run_steps server e rest) as [rs env2]
    end.
    cbn [fst snd map length repeat done_of done step_count] in *.
    rewrite IHf, IHc; split; [reflexivity | lia].
Qed.

(** X8.  Rejected calls use up the episode: against a backend that never
    reports the end of the episode, after 99 calls of [step] from the start
    of an episode, accepted or rejected in any mix, no flag returned so far
    is true, the counter stands at 99, and the next accepted call returns a
    true flag and puts the counter back to 0. *)
Theorem hundredth_call_ends_episode :
  forall env actions v,
    step_count env = 0 ->
    length actions = 99%nat ->
    valid_action v = true ->
    let env99 := snd (run_steps server env actions) in
    Forall (fun r => done_of r <> Some true)
           (fst (run_steps server env actions)) /\
    step_count env99 = 99 /\
    done_of (fst (step server env99 v)) = Some true /\
    step_count (snd (step server env99 v)) = 0.
Proof.
  intros env actions v H0 Hlen Hv; cbv zeta.
  destruct (run_quiet actions env) as [Hc Hd].
  { intros k Hk; rewrite H0; lia. }
  rewrite H0, Hlen in Hc; cbn in Hc.
  split; [exact Hd|]; split; [exact Hc|].
  unfold valid_action in Hv.
  destruct (decode_action v) as [a| |] eqn:Ha; try discriminate.
  rewrite (step_accepted server _ v a Ha); cbv zeta.
  rewrite Hc; cbn [fst snd done_of done step_count Z.add Z.eqb Pos.add
                   Pos.succ Pos.eqb].
  split; reflexivity.
Qed.

End QuietBackend.

Lemma cap_is_missed_past_100_witness :
  (forall calls a c, snd (on_action accepting_server calls a c) = false) /\
  100 <= step_count
           (snd (run_steps accepting_server (fresh_env RGB_ONLY)
                   (repeat (PyAction FORWARD) 99 ++ [PyNone]))) /\
  forallb valid_action (repeat (PyAction FORWARD) 150) = true /\
  map done_of
      (fst (run_steps accepting_server
              (snd (run_steps accepting_server (fresh_env RGB_ONLY)
                      (repeat (PyAction FORWARD) 99 ++ [PyNone])))
              (repeat (PyAction FORWARD) 150)))
  = repeat (Some false) 150.
Proof.
  assert (Hq : forall calls a c,
             snd (on_action accepting_server calls a c) = false)
    by reflexivity.
  assert (Hc : 100 <= step_count
                      (snd (run_steps accepting_server (fresh_env RGB_ONLY)
                              (repeat (PyAction FORWARD) 99 ++ [PyNone]))))
    by (vm_compute; discriminate).
  split; [exact Hq|]; split; [exact Hc|]; split; [reflexivity|].
  destruct (cap_is_missed_past_100 accepting_server Hq _
              (repeat (PyAction FORWARD) 150) Hc eq_refl) as [H _].
  rewrite H; reflexivity.
Defined.

Lemma hundredth_call_ends_episode_witness :
  (forall calls a c, snd (on_action accepting_server calls a c) = false) /\
  step_count (fresh_env DEPTH_ONLY) = 0 /\
  length (repeat PyNone 50 ++ repeat (PyInt 1) 49) = 99%nat /\
  valid_action (PyAction LEFT) = true /\
  done_of (fst (step accepting_server
                  (snd (run_steps accepting_server (fresh_env DEPTH_ONLY)
                          (repeat PyNone 50 ++ repeat (PyInt 1) 49)))
                  (PyAction LEFT))) = Some true.
Proof.
  assert (Hq : forall calls a c,
             snd (on_action accepting_server calls a c) = false)
    by reflexivity.
  split; [exact Hq|]; split; [reflexivity|]; split; [reflexivity|].
  split; [reflexivity|].
  destruct (hundredth_call_ends_episode accepting_server Hq
              (fresh_env DEPTH_ONLY)
              (repeat PyNone 50 ++ repeat (PyInt 1) 49) (PyAction LEFT)
              eq_refl eq_refl eq_refl) as (_ & _ & H & _).
  exact H.
Defined.

(* ------------------------------------------------------------------ *)
(** ** The forms of an action *)

Lemma decode_action_of_value :
  forall a,
    decode_action (PyInt (action_value a)) = Returned a /\
    decode_action (NpInt32 (action_value a)) = Returned a /\
    decode_action (NpInt64 (action_value a)) = Returned a /\
    decode_action (PyAction a) = Returned a.
Proof. destruct a; repeat split; reflexivity. Qed.

(** X9.  An action may be given as a member of the enumeration or as its
    integer value, as a Python [int], an [np.int32] or an [np.int64]: the
    four calls of [step] return the same result and leave the same
    environment.  And the integer that decodes to a member is the value of
    that member. *)
Theorem step_takes_member_or_value :
  forall server env a,
    step server env (PyInt (action_value a)) = step server env (PyAction a) /\
    step server env (NpInt32 (action_value a)) = step server env (PyAction a) /\
    step server env (NpInt64 (action_value a)) = step server env (PyAction a) /\
    (forall z, decode_action (PyInt z) = Returned a -> z = action_value a).
Proof.
  intros server env a.
  destruct (decode_action_of_value a) as (Hi & H32 & H64 & Ha).
  rewrite (step_accepted server env _ a Hi), (step_accepted server env _ a H32),
    (step_accepted server env _ a H64), (step_accepted server env _ a Ha).
  repeat split; try reflexivity.
  intros z; apply decode_int_returned.
Qed.

Lemma step_takes_member_or_value_witness :
  step finishing_server (fresh_env RGBD) (PyInt 3)
    = step finishing_server (fresh_env RGBD) (PyAction BACKWARD) /\
  3 = action_value BACKWARD.
Proof.
  destruct (step_takes_member_or_value finishing_server (fresh_env RGBD)
              BACKWARD) as (H & _ & _ & Hz).
  split; [exact H | exact (Hz 3 eq_refl)].
Defined.

(* ------------------------------------------------------------------ *)
(** ** [render] *)

Lemma run_last_state :
  forall server actions env,
    _last_state (snd (run_steps server env actions))
    = last_returned_state (fst (run_steps server env actions))
                          (_last_state env).
Proof.
  intros server actions; induction actions as [|v rest IH]; intros env.
  - reflexivity.
  - cbn [run_steps].
    destruct (step server env v) as [r env1] eqn:Hs.
    specialize (IH env1).
    destruct (run_steps server env1 rest) as [rs env2].
    cbn [fst snd] in *; rewrite IH.
    destruct (step_outcome_cases v) as [[a Hd] | [e Hd]].
    + rewrite (step_accepted server env v a Hd) in Hs; cbv zeta in Hs.
      injection Hs as <- <-; reflexivity.
    + rewrite (step_rejected server env v e Hd) in Hs.
      injection Hs as <- <-; reflexivity.
Qed.

(** X10.  After any run of [step] calls, [render('human')] shows the
    squeezed state of the last step that returned: when that state has the
    shape of an image it draws one figure, numbered 1 and titled "State";
    when it has not, [plt.imshow] raises a [TypeError].  A rejected step
    does not change what is shown, and when no step has returned yet the
    state held before the run is shown, nothing being drawn when there is
    none. *)
Theorem render_shows_last_returned_state :
  forall server actions env,
    render (snd (run_steps server env actions)) "human"
    = match last_returned_state (fst (run_steps server env actions))
                                (_last_state env) with
      | None => Done []
      | Some s =>
          if image_shaped (shape (np_squeeze s))
          then Done [mk_figure 1 "State" (np_squeeze s)]
          else Failed (TypeError "Invalid shape for image data")
      end.
Proof.
  intros server actions env; unfold render; cbn [String.eqb].
  rewrite run_last_state.
  reflexivity.
Qed.

(** X11.  [reset] does not touch what [render] draws: after a reset
    [render] still shows the state of the last step, not the observation
    that the reset returned, and right after [__init__] it draws nothing.
    Any mode other than "human" is refused with a [NotImplementedError]
    that carries the mode. *)
Theorem render_ignores_reset :
  forall server env mode,
    render (snd (reset server env)) mode = render env mode /\
    (forall fuel name resume channel_type now env0,
       __init__ server fuel name resume channel_type now = Returned env0 ->
       render (snd (reset server env0)) "human" = Done []) /\
    (mode <> "human"%string ->
     render env mode = Failed (NotImplementedError mode)).
Proof.
  intros server env mode; split; [reflexivity|]; split.
  - intros fuel name resume channel_type now env0; unfold __init__.
    destruct (_initiate server name resume fuel [] now) as [[[u|e|] calls] t];
      try discriminate.
    intros [= <-]; reflexivity.
  - intros Hm; unfold render.
    destruct (String.eqb_spec mode "human"); [contradiction | reflexivity].
Qed.

Lemma render_ignores_reset_witness :
  __init__ finishing_server 1 "test-1" false RGB_ONLY 0
    = Returned (fresh_env RGB_ONLY) /\
  "rgb_array"%string <> "human"%string /\
  render (snd (reset finishing_server (fresh_env RGB_ONLY))) "human"
    = Done [] /\
  render (fresh_env RGB_ONLY) "rgb_array"
    = Failed (NotImplementedError "rgb_array").
Proof.
  assert (Hi : __init__ finishing_server 1 "test-1" false RGB_ONLY 0
               = Returned (fresh_env RGB_ONLY)) by reflexivity.
  assert (Hm : "rgb_array"%string <> "human"%string) by discriminate.
  destruct (render_ignores_reset finishing_server (fresh_env RGB_ONLY)
              "rgb_array") as (_ & Hfresh & Hmode).
  split; [exact Hi|]; split; [exact Hm|]; split.
  - exact (Hfresh 1%nat "test-1"%string false RGB_ONLY 0%Q
             (fresh_env RGB_ONLY) Hi).
  - exact (Hmode Hm).
Defined.

(* ------------------------------------------------------------------ *)
(** ** The key buffer of the manual control example *)

Lemma on_press_one_slot :
  forall keys key code,
    (length keys <= 1)%nat ->
    dict_get key_mapping key = Some code ->
    on_press keys key = (Done tt, [code]).
Proof.
  intros keys key code Hlen Hget; unfold on_press; rewrite Hget.
  destruct keys as [|x [|y keys]]; [reflexivity | reflexivity |].
  cbn [length] in Hlen; lia.
Qed.

(** X12.  The buffer of the example holds one key: started empty or with
    one entry, after any presses of keys of the table, at least one, it
    holds exactly the code of the key pressed last. *)
Theorem key_buffer_holds_last_key :
  forall presses keys,
    (length keys <= 1)%nat ->
    presses <> [] ->
    Forall (fun key => dict_get key_mapping key <> None) presses ->
    exists code,
      dict_get key_mapping (last presses Key_esc) = Some code /\
      press_all keys presses = (Done tt, [code]).
Proof.
  induction presses as [|key rest IH]; intros keys Hlen Hne Hall;
    [contradiction|].
  inversion Hall as [|? ? Hkey Hrest]; subst.
  destruct (dict_get key_mapping key) as [code|] eqn:Hget;
    [|contradiction].
  cbn [press_all]; rewrite (on_press_one_slot keys key code Hlen Hget).
  destruct rest as [|key2 rest].
  - exists code; split; [exact Hget | reflexivity].
  - destruct (IH [code]) as (code' & Hlast & Hp);
      [cbn; lia | discriminate | exact Hrest |].
    exists code'; split; [exact Hlast | exact Hp].
Qed.

Lemma key_buffer_holds_last_key_witness :
  (length (@nil Z) <= 1)%nat /\
  [Key_left; Key_left; Key_up] <> [] /\
  Forall (fun key => dict_get key_mapping key <> None)
         [Key_left; Key_left; Key_up] /\
  press_all [] [Key_left; Key_left; Key_up] = (Done tt, [2]).
Proof.
  assert (Hlen : (length (@nil Z) <= 1)%nat) by (cbn; lia).
  assert (Hne : [Key_left; Key_left; Key_up] <> []) by discriminate.
  assert (Hall : Forall (fun key => dict_get key_mapping key <> None)
                        [Key_left; Key_left; Key_up])
    by (repeat constructor; discriminate).
  split; [exact Hlen|]; split; [exact Hne|]; split; [exact Hall|].
  destruct (key_buffer_holds_last_key [Key_left; Key_left; Key_up] []
              Hlen Hne Hall) as (code & Hlast & Hp).
  rewrite Hp; injection Hlast as <-; reflexivity.
Defined.

(** X13.  A key that is not in the table makes [on_press] raise a
    [KeyError], and the oldest entry of the buffer has already been popped
    when it does: a buffer of one key is left empty, and on an empty
    buffer [keys[0]] raises an [IndexError] before [step] is called. *)
Theorem unmapped_key_empties_buffer :
  forall name keys,
    on_press keys (Key_other name) = (Failed (KeyError name), tl keys) /\
    (forall server env,
       (length keys <= 1)%nat ->
       control_step server env (snd (on_press keys (Key_other name)))
       = (Raised (IndexError "list index out of range"), env)).
Proof.
  intros name keys.
  assert (H : on_press keys (Key_other name)
              = (Failed (KeyError name), tl keys))
    by (destruct keys; reflexivity).
  split; [exact H|].
  intros server env Hlen; rewrite H; cbn [snd].
  destruct keys as [|x [|y keys]]; [reflexivity | reflexivity |].
  cbn [length] in Hlen; lia.
Qed.

Lemma unmapped_key_empties_buffer_witness :
  (length [2] <= 1)%nat /\
  on_press [2] (Key_other "a") = (Failed (KeyError "a"), []) /\
  control_step accepting_server (fresh_env DEPTH_ONLY)
               (snd (on_press [2] (Key_other "a")))
  = (Raised (IndexError "list index out of range"), fresh_env DEPTH_ONLY).
Proof.
  assert (Hlen : (length [2] <= 1)%nat) by (cbn; lia).
  destruct (unmapped_key_empties_buffer "a" [2]) as [H1 H2].
  split; [exact Hlen|]; split; [exact H1|].
  exact (H2 accepting_server (fresh_env DEPTH_ONLY) Hlen).
Defined.



(* ------------------------------------------------------------------ *)
(** ** [GazeboGymEnv] *)

Lemma launch_node_cases :
  forall m self,
    (exists path pid,
       GazeboGymEnv.rospack_get_path m (GazeboGymEnv.package_name self)
         = GazeboGymEnv.PathIs path /\
       GazeboGymEnv.subprocess_popen m
         [path; "launch"%string; GazeboGymEnv.launch_file self] = Some pid /\
       GazeboGymEnv.launch_node m self
       = (Returned tt,
          GazeboGymEnv.mk_self (GazeboGymEnv.package_name self)
            (GazeboGymEnv.launch_file self) (GazeboGymEnv.node_name self)
            (Some pid) true,
          GazeboGymEnv.Popen
            ["roslaunch"%string;
             GazeboGymEnv.os_path_join path
               ["launch"%string; GazeboGymEnv.launch_file self]]
            (GazeboGymEnv.ros_env (GazeboGymEnv.os_environ m))
            :: GazeboGymEnv.ThreadStart :: GazeboGymEnv.node_start self))
    \/ (exists path,
          GazeboGymEnv.rospack_get_path m (GazeboGymEnv.package_name self)
            = GazeboGymEnv.PathIs path /\
          GazeboGymEnv.subprocess_popen m
            [path; "launch"%string; GazeboGymEnv.launch_file self] = None /\
          GazeboGymEnv.launch_node m self
          = (Returned tt, self,
             GazeboGymEnv.PrintLine "Ros node could not be started."
               :: GazeboGymEnv.Traceback :: GazeboGymEnv.node_start self))
    \/ (exists e,
          (forall path,
             GazeboGymEnv.rospack_get_path m (GazeboGymEnv.package_name self)
             <> GazeboGymEnv.PathIs path) /\
          GazeboGymEnv.launch_node m self = (Raised e, self, [])).
Proof.
  intros m self; unfold GazeboGymEnv.launch_node.
  destruct (GazeboGymEnv.rospack_get_path m (GazeboGymEnv.package_name self))
    as [path| |e].
  - destruct (GazeboGymEnv.subprocess_popen m
                [path; "launch"%string; GazeboGymEnv.launch_file self])
      as [pid|] eqn:Hp.
    + left; exists path, pid; repeat split; assumption || reflexivity.
    + right; left; exists path; repeat split; assumption || reflexivity.
  - right; right; eexists; split; [discriminate | reflexivity].
  - right; right; eexists; split; [discriminate | reflexivity].
Qed.

(** X15.  The constructor fails only on its two assertions: an absent or
    empty package name, or an absent or empty launch file name, raises
    before anything is done to the machine.  With two names that are not
    empty it always hands back the environment, whatever happens in
    [launch_node]: the ROS node is initialized exactly when the package is
    found (also when [roslaunch] cannot be started), and the environment
    holds a process exactly when the package is found and [Popen]
    succeeds. *)
Theorem gazebo_constructor_outcomes :
  forall m pkg file node,
    (pkg = None \/ pkg = Some ""%string ->
     GazeboGymEnv.__init__ m pkg file node
     = (Raised (AssertionError "Must provide a valid package name."), [])) /\
    (forall p, pkg = Some p -> p <> ""%string ->
               file = None \/ file = Some ""%string ->
       GazeboGymEnv.__init__ m pkg file node
       = (Raised (AssertionError "Must provide a valid launch file name."),
          [])) /\
    (forall p f, pkg = Some p -> p <> ""%string -> file = Some f ->
                 f <> ""%string ->
       exists self effects,
         GazeboGymEnv.__init__ m pkg file node = (Returned self, effects) /\
         GazeboGymEnv.package_name self = p /\
         GazeboGymEnv.launch_file self = f /\
         GazeboGymEnv.node_name self = node /\
         (In (GazeboGymEnv.InitNode node true) effects <->
          exists path,
            GazeboGymEnv.rospack_get_path m p = GazeboGymEnv.PathIs path) /\
         (forall pid,
            GazeboGymEnv.roslaunch_process self = Some pid <->
            exists path,
              GazeboGymEnv.rospack_get_path m p = GazeboGymEnv.PathIs path /\
              GazeboGymEnv.subprocess_popen m [path; "launch"%string; f]
              = Some pid)).
Proof.
  intros m pkg file node; split; [|split].
  - intros [-> | ->]; reflexivity.
  - intros p -> Hp Hfile.
    destruct p as [|c p]; [contradiction Hp; reflexivity|].
    destruct Hfile as [-> | ->]; reflexivity.
  - intros p f -> Hp -> Hf.
    destruct p as [|c p]; [contradiction Hp; reflexivity|].
    destruct f as [|d f]; [contradiction Hf; reflexivity|].
    unfold GazeboGymEnv.__init__.
    set (self := GazeboGymEnv.mk_self (String c p) (String d f) node
                   None false).
    destruct (launch_node_cases m self)
      as [(path & pid & Hpath & Hpop & ->)
         | [(path & Hpath & Hpop & ->) | (e & Hpath & ->)]];
      cbn [GazeboGymEnv.package_name GazeboGymEnv.launch_file self] in *;
      eexists; eexists; (split; [reflexivity|]);
      cbn [GazeboGymEnv.package_name GazeboGymEnv.launch_file
           GazeboGymEnv.node_name GazeboGymEnv.roslaunch_process self];
      (split; [reflexivity|]); (split; [reflexivity|]);
      (split; [reflexivity|]).
    + split.
      * split; [intros _; exists path; exact Hpath|].
        intros _; cbn; auto.
      * intros q; split.
        -- intros [= <-]; exists path; split; assumption.
        -- intros (path' & Hq & Hq').
           rewrite Hpath in Hq; injection Hq as <-.
           rewrite Hpop in Hq'; exact Hq'.
    + split.
      * split; [intros _; exists path; exact Hpath|].
        intros _; cbn; auto.
      * intros q; split; [discriminate|].
        intros (path' & Hq & Hq').
        rewrite Hpath in Hq; injection Hq as <-.
        rewrite Hpop in Hq'; discriminate.
    + split.
      * split.
        -- cbn; intros [H | []]; discriminate.
        -- intros [path Hq]; exfalso; exact (Hpath path Hq).
      * intros q; split; [discriminate|].
        intros (path' & Hq & _); exfalso; exact (Hpath path' Hq).
Qed.

Lemma gazebo_constructor_outcomes_witness :
  GazeboGymEnv.__init__ GazeboGymEnv.working_machine (Some ""%string)
                        (Some "a.launch"%string) "gym_offworld_env"
  = (Raised (AssertionError "Must provide a valid package name."), []) /\
  exists self effects,
    GazeboGymEnv.__init__ GazeboGymEnv.working_machine
                          (Some "gym_offworld"%string)
                          (Some "a.launch"%string) "gym_offworld_env"
    = (Returned self, effects) /\
    GazeboGymEnv.package_name self = "gym_offworld"%string.
Proof.
  destruct (gazebo_constructor_outcomes GazeboGymEnv.working_machine
              (Some ""%string) (Some "a.launch"%string)
              "gym_offworld_env") as (Hbad & _ & _).
  destruct (gazebo_constructor_outcomes GazeboGymEnv.working_machine
              (Some "gym_offworld"%string) (Some "a.launch"%string)
              "gym_offworld_env") as (_ & _ & Hgood).
  split; [apply Hbad; right; reflexivity|].
  destruct (Hgood "gym_offworld"%string "a.launch"%string eq_refl
              ltac:(discriminate) eq_refl ltac:(discriminate))
    as (self & effects & Hi & Hp & _).
  exists self, effects; split; assumption.
Defined.

Lemma ros_env_lookup :
  forall environ name,
    GazeboGymEnv.ros_env environ name
    = if String.eqb name "PYTHONPATH"
      then match environ "ROSLAUNCH_PYTHONPATH_OVERRIDE"%string with
           | Some override => Some override
           | None => environ "PYTHONPATH"%string
           end
      else environ name.
Proof.
  intros environ name; unfold GazeboGymEnv.ros_env.
  destruct (environ "ROSLAUNCH_PYTHONPATH_OVERRIDE"%string) as [o|].
  - reflexivity.
  - destruct (String.eqb_spec name "PYTHONPATH") as [->|]; reflexivity.
Qed.

Lemma append_assoc :
  forall a b c : string, ((a ++ b) ++ c = a ++ b ++ c)%string.
Proof.
  intros a b c; induction a as [|x a IH]; cbn [append];
    [reflexivity | rewrite IH; reflexivity].
Qed.

Lemma ends_with_slash_append :
  forall (a : string) (x : ascii) (b : string),
    GazeboGymEnv.ends_with_slash (a ++ String x b)
    = GazeboGymEnv.ends_with_slash (String x b).
Proof.
  intros a x b; induction a as [|y a IH]; [reflexivity|].
  cbn [append]; rewrite <- IH.
  destruct a; reflexivity.
Qed.

(** [os.path.join(path, "launch", file)]: an absolute [file] is the whole
    result; a relative one comes after [path] and "launch", a slash being
    put after [path] unless it is empty or ends with one. *)
Lemma os_path_join_launch :
  forall path file,
    GazeboGymEnv.os_path_join path ["launch"%string; file]
    = if GazeboGymEnv.starts_with_slash file then file
      else if (String.eqb path "" || GazeboGymEnv.ends_with_slash path)%bool
           then (path ++ "launch/" ++ file)%string
           else (path ++ "/launch/" ++ file)%string.
Proof.
  intros path file.
  unfold GazeboGymEnv.os_path_join; cbn [fold_left].
  unfold GazeboGymEnv.join_part at 1.
  destruct (GazeboGymEnv.starts_with_slash file); [reflexivity|].
  unfold GazeboGymEnv.join_part.
  change (GazeboGymEnv.starts_with_slash "launch") with false; cbv iota.
  destruct (String.eqb path "" || GazeboGymEnv.ends_with_slash path)%bool.
  - rewrite ends_with_slash_append.
    change (GazeboGymEnv.ends_with_slash "launch") with false.
    replace (String.eqb (path ++ "launch") "") with false
      by (destruct path; reflexivity).
    cbn [orb]; rewrite append_assoc; reflexivity.
  - change ("/" ++ "launch")%string with "/launch"%string.
    rewrite ends_with_slash_append.
    change (GazeboGymEnv.ends_with_slash "/launch") with false.
    replace (String.eqb (path ++ "/launch") "") with false
      by (destruct path; reflexivity).
    cbn [orb]; rewrite append_assoc; reflexivity.
Qed.

(** X16.  When the package is found and [roslaunch] starts, the first
    thing [launch_node] does to the machine is to start "roslaunch" on one
    argument, the path that [os.path.join] makes of the package path,
    "launch" and the launch file: the launch file alone when its name
    starts with a slash, and otherwise the package path, "launch" and the
    launch file with a slash between them (none being added after a package
    path that is empty or ends with one).  The child sees the variables of
    the parent, except that its PYTHONPATH is the value of
    ROSLAUNCH_PYTHONPATH_OVERRIDE when that variable is set. *)
Theorem roslaunch_child_environment :
  forall m self path pid,
    GazeboGymEnv.rospack_get_path m (GazeboGymEnv.package_name self)
      = GazeboGymEnv.PathIs path ->
    GazeboGymEnv.subprocess_popen m
      [path; "launch"%string; GazeboGymEnv.launch_file self] = Some pid ->
    exists child_env rest,
      snd (GazeboGymEnv.launch_node m self)
      = GazeboGymEnv.Popen
          ["roslaunch"%string;
           if GazeboGymEnv.starts_with_slash (GazeboGymEnv.launch_file self)
           then GazeboGymEnv.launch_file self
           else if (String.eqb path ""
                    || GazeboGymEnv.ends_with_slash path)%bool
                then (path ++ "launch/" ++ GazeboGymEnv.launch_file self)%string
                else (path ++ "/launch/" ++ GazeboGymEnv.launch_file self)%string]
          child_env
          :: rest /\
      (forall name,
         child_env name
         = if String.eqb name "PYTHONPATH"
           then match GazeboGymEnv.os_environ m
                        "ROSLAUNCH_PYTHONPATH_OVERRIDE"%string with
                | Some override => Some override
                | None => GazeboGymEnv.os_environ m "PYTHONPATH"%string
                end
           else GazeboGymEnv.os_environ m name) /\
      GazeboGymEnv.roslaunch_process (snd (fst (GazeboGymEnv.launch_node m self)))
      = Some pid.
Proof.
  intros m self path pid Hpath Hpop.
  unfold GazeboGymEnv.launch_node; rewrite Hpath, Hpop.
  cbn [fst snd]; rewrite os_path_join_launch.
  eexists; eexists; split; [reflexivity|]; split; [|reflexivity].
  apply ros_env_lookup.
Qed.

Lemma roslaunch_child_environment_witness :
  (exists child_env rest,
     snd (GazeboGymEnv.launch_node GazeboGymEnv.working_machine
            (GazeboGymEnv.mk_self "gym_offworld" "a.launch" "node" None false))
     = GazeboGymEnv.Popen ["roslaunch"; "/opt/ros/pkg/launch/a.launch"]%string
                          child_env :: rest /\
     child_env "PYTHONPATH"%string = Some "/override"%string) /\
  (exists child_env rest,
     snd (GazeboGymEnv.launch_node GazeboGymEnv.working_machine
            (GazeboGymEnv.mk_self "gym_offworld" "/abs/a.launch" "node" None
               false))
     = GazeboGymEnv.Popen ["roslaunch"; "/abs/a.launch"]%string
                          child_env :: rest).
Proof.
  split.
  - destruct (roslaunch_child_environment GazeboGymEnv.working_machine
                (GazeboGymEnv.mk_self "gym_offworld" "a.launch" "node" None
                   false)
                "/opt/ros/pkg" 100%nat eq_refl eq_refl)
      as (child_env & rest & He & Hl & _).
    exists child_env, rest; split; [exact He|].
    rewrite Hl; reflexivity.
  - destruct (roslaunch_child_environment GazeboGymEnv.working_machine
                (GazeboGymEnv.mk_self "gym_offworld" "/abs/a.launch" "node"
                   None false)
                "/opt/ros/pkg" 100%nat eq_refl eq_refl)
      as (child_env & rest & He & _).
    exists child_env, rest; exact He.
Defined.

Lemma signalled_app :
  forall a b,
    GazeboGymEnv.signalled (a ++ b)
    = GazeboGymEnv.signalled a ++ GazeboGymEnv.signalled b.
Proof. intros a b; unfold GazeboGymEnv.signalled; apply flat_map_app. Qed.

(** The loop over the children signals them in order and stops at the
    first one that cannot be signalled. *)
Lemma signal_children_stops :
  forall m children,
    (exists rest,
       children
       = GazeboGymEnv.signalled (GazeboGymEnv.signal_children m children)
         ++ rest /\
       forallb (GazeboGymEnv.send_signal_ok m)
               (GazeboGymEnv.signalled
                  (GazeboGymEnv.signal_children m children)) = true /\
       match rest with
       | [] => True
       | pid :: _ => GazeboGymEnv.send_signal_ok m pid = false
       end) /\
    filter (fun e => match e with GazeboGymEnv.System _ => true
                                | _ => false end)
           (GazeboGymEnv.signal_children m children) = [].
Proof.
  intros m children; induction children as [|pid rest IH].
  - split; [exists []; repeat split|]; reflexivity.
  - cbn [GazeboGymEnv.signal_children].
    destruct (GazeboGymEnv.send_signal_ok m pid) eqn:Hok.
    + destruct IH as ((tl & Heq & Hall & Hnext) & Hsys).
      cbn [GazeboGymEnv.signalled flat_map app filter].
      fold (GazeboGymEnv.signalled (GazeboGymEnv.signal_children m rest)).
      split; [|exact Hsys].
      exists tl; split; [rewrite <- Heq; reflexivity|].
      split; [|exact Hnext].
      cbn [forallb]; rewrite Hok, Hall; reflexivity.
    + split; [|reflexivity].
      exists (pid :: rest); repeat split; exact Hok.
Qed.

(** X17.  [close] always runs the four [killall] commands, in the order
    gzclient, gzserver, rosmaster, roscore, and runs no other command,
    whatever happens before them.  The processes it sends SIGTERM to are the
    descendants of the roslaunch process, in order, up to the first one that
    cannot be signalled: every one of them could be signalled, and the
    descendant that comes next, when there is one, could not.  They are
    all the descendants when every signal can be sent, and there is none
    when the environment holds no process or its descendants cannot be
    listed. *)
Theorem close_signals_children_then_kills :
  forall m self,
    filter (fun e => match e with GazeboGymEnv.System _ => true
                                | _ => false end)
           (GazeboGymEnv.close m self)
    = GazeboGymEnv.killall_commands /\
    (exists pre,
       GazeboGymEnv.close m self = pre ++ GazeboGymEnv.killall_commands) /\
    match GazeboGymEnv.roslaunch_process self with
    | Some root =>
        match GazeboGymEnv.psutil_children m root with
        | Some children =>
            (exists rest,
               children
               = GazeboGymEnv.signalled (GazeboGymEnv.close m self) ++ rest /\
               forallb (GazeboGymEnv.send_signal_ok m)
                       (GazeboGymEnv.signalled (GazeboGymEnv.close m self))
               = true /\
               match rest with
               | [] => True
               | pid :: _ => GazeboGymEnv.send_signal_ok m pid = false
               end) /\
            (forallb (GazeboGymEnv.send_signal_ok m) children = true ->
             GazeboGymEnv.signalled (GazeboGymEnv.close m self) = children)
        | None => GazeboGymEnv.signalled (GazeboGymEnv.close m self) = []
        end
    | None => GazeboGymEnv.signalled (GazeboGymEnv.close m self) = []
    end.
Proof.
  intros m self; unfold GazeboGymEnv.close.
  split; [|split].
  - cbn [filter]; rewrite filter_app.
    unfold GazeboGymEnv.terminate_children.
    destruct (GazeboGymEnv.roslaunch_process self) as [root|];
      [|reflexivity].
    destruct (GazeboGymEnv.psutil_children m root) as [children|];
      [|reflexivity].
    destruct (signal_children_stops m children) as (_ & ->).
    reflexivity.
  - eexists (_ :: _); reflexivity.
  - change (GazeboGymEnv.signalled (?e :: ?l))
      with (GazeboGymEnv.signalled l).
    unfold GazeboGymEnv.terminate_children.
    destruct (GazeboGymEnv.roslaunch_process self) as [root|];
      [|reflexivity].
    destruct (GazeboGymEnv.psutil_children m root) as [children|];
      [|reflexivity].
    rewrite signalled_app; cbn [GazeboGymEnv.killall_commands].
    change (GazeboGymEnv.signalled
              [GazeboGymEnv.System _; GazeboGymEnv.System _;
               GazeboGymEnv.System _; GazeboGymEnv.System _])
      with (@nil nat).
    rewrite app_nil_r.
    destruct (signal_children_stops m children)
      as ((rest & Heq & Hall & Hnext) & _).
    split; [exists rest; repeat split; assumption|].
    intros Hok.
    destruct rest as [|pid tl]; [rewrite app_nil_r in Heq; congruence|].
    exfalso; rewrite Heq, forallb_app in Hok.
    apply andb_prop in Hok as [_ Hok]; cbn [forallb] in Hok.
    rewrite Hnext in Hok; discriminate.
Qed.

Lemma close_signals_children_then_kills_witness :
  (forallb (GazeboGymEnv.send_signal_ok GazeboGymEnv.working_machine)
           [101; 102]%nat = true /\
   GazeboGymEnv.signalled
     (GazeboGymEnv.close GazeboGymEnv.working_machine
        (GazeboGymEnv.mk_self "gym_offworld" "a.launch" "node"
           (Some 100%nat) true))
   = [101; 102]%nat) /\
  (GazeboGymEnv.signalled
     (GazeboGymEnv.close GazeboGymEnv.failing_machine
        (GazeboGymEnv.mk_self "gym_offworld" "a.launch" "node"
           (Some 100%nat) true))
   = [101]%nat /\
   exists rest,
     [101; 102; 103]%nat = [101]%nat ++ rest /\
     match rest with
     | [] => True
     | pid :: _ =>
         GazeboGymEnv.send_signal_ok GazeboGymEnv.failing_machine pid = false
     end).
Proof.
  split.
  - destruct (close_signals_children_then_kills GazeboGymEnv.working_machine
                (GazeboGymEnv.mk_self "gym_offworld" "a.launch" "node"
                   (Some 100%nat) true)) as (_ & _ & _ & H).
    split; [reflexivity | exact (H eq_refl)].
  - destruct (close_signals_children_then_kills GazeboGymEnv.failing_machine
                (GazeboGymEnv.mk_self "gym_offworld" "a.launch" "node"
                   (Some 100%nat) true))
      as (_ & _ & (rest & Heq & _ & Hnext) & _).
    split; [reflexivity|].
    exists rest; split; [exact Heq | exact Hnext].
Defined.

(** X18.  An environment whose launch did not start a process, because the
    package was not found or [roslaunch] could not be started, is still
    handed back by the constructor; closing it sends no signal at all,
    reports the failed attempt and runs the four [killall] commands. *)
Theorem close_after_failed_launch :
  forall m p f node self effects,
    p <> ""%string -> f <> ""%string ->
    GazeboGymEnv.__init__ m (Some p) (Some f) node = (Returned self, effects) ->
    (forall path,
       GazeboGymEnv.rospack_get_path m p = GazeboGymEnv.PathIs path ->
       GazeboGymEnv.subprocess_popen m [path; "launch"%string; f] = None) ->
    GazeboGymEnv.close m self
    = GazeboGymEnv.LogInfo "Closing the environment and all processes. "
        :: GazeboGymEnv.Traceback :: GazeboGymEnv.killall_commands.
Proof.
  intros m p f node self effects Hp Hf Hi Hfail.
  destruct p as [|c p]; [contradiction Hp; reflexivity|].
  destruct f as [|d f]; [contradiction Hf; reflexivity|].
  unfold GazeboGymEnv.__init__ in Hi.
  set (self0 := GazeboGymEnv.mk_self (String c p) (String d f) node
                  None false) in Hi.
  assert (Hnone : GazeboGymEnv.roslaunch_process self = None).
  { destruct (launch_node_cases m self0)
      as [(path & pid & Hpath & Hpop & Hl)
         | [(path & Hpath & Hpop & Hl) | (e & Hpath & Hl)]];
      rewrite Hl in Hi.
    - cbn [GazeboGymEnv.package_name GazeboGymEnv.launch_file self0]
        in Hpath, Hpop.
      rewrite (Hfail path Hpath) in Hpop; discriminate.
    - injection Hi as <- _; reflexivity.
    - injection Hi as <- _; reflexivity. }
  unfold GazeboGymEnv.close, GazeboGymEnv.terminate_children.
  rewrite Hnone; reflexivity.
Qed.

Lemma close_after_failed_launch_witness :
  let m := GazeboGymEnv.mk_machine (fun _ => GazeboGymEnv.PathNone)
             (fun _ => None) (fun _ => Some 100%nat)
             (fun _ => Some [101%nat]) (fun _ => true) in
  let self := GazeboGymEnv.mk_self "gym_offworld" "a.launch" "node"
                None false in
  GazeboGymEnv.__init__ m (Some "gym_offworld"%string)
                        (Some "a.launch"%string) "node"
    = (Returned self, [GazeboGymEnv.Traceback]) /\
  GazeboGymEnv.signalled (GazeboGymEnv.close m self) = [].
Proof.
  cbv zeta.
  assert (Hi : GazeboGymEnv.__init__
                 (GazeboGymEnv.mk_machine (fun _ => GazeboGymEnv.PathNone)
                    (fun _ => None) (fun _ => Some 100%nat)
                    (fun _ => Some [101%nat]) (fun _ => true))
                 (Some "gym_offworld"%string) (Some "a.launch"%string) "node"
               = (Returned (GazeboGymEnv.mk_self "gym_offworld" "a.launch"
                              "node" None false),
                  [GazeboGymEnv.Traceback])) by reflexivity.
  split; [exact Hi|].
  rewrite (close_after_failed_launch _ "gym_offworld"%string
             "a.launch"%string "node" _ _ ltac:(discriminate)
             ltac:(discriminate) Hi ltac:(discriminate)).
  reflexivity.
Defined.

(* ------------------------------------------------------------------ *)
(** ** More on the two pipelines *)

(** A value of a float32 array from which [np.nan_to_num] has taken NaN and
    the infinities is a finite float32. *)
Lemma depth_value_is_float32 :
  forall v,
    exists r : Q,
      nan_to_num_value (round_value binary32 v) = Fin r /\
      binary32 r = Fin r.
Proof.
  destruct binary32_float32 as (Hlaws & Hmax & Hmin).
  assert (H0 : binary32 0%Q = Fin 0) by exact (rnd_zero _ Hlaws).
  assert (Hcases : forall w,
             (forall q, w = Fin q -> binary32 q = Fin q) ->
             exists r : Q, nan_to_num_value w = Fin r /\ binary32 r = Fin r).
  { intros [| | |q] Hq; cbn [nan_to_num_value].
    - exists 0%Q; split; [reflexivity | exact H0].
    - exists FLT_MAX; split; [reflexivity | exact Hmax].
    - exists (- FLT_MAX)%Q; split; [reflexivity | exact Hmin].
    - exists q; split; [reflexivity | apply Hq; reflexivity]. }
  intros [| | |q]; cbn [round_value].
  - apply Hcases; intros q' [=].
  - apply Hcases; intros q' [=].
  - apply Hcases; intros q' [=].
  - apply Hcases; intros r Hr; exact (rnd_idem _ Hlaws q r Hr).
Qed.

Section SizedFrames.

Variable resize : Resize.
Hypothesis resize_copy : resize_same_size_copies resize.

Lemma process_depth_msg_sized :
  forall img w h clip,
    shape img = [h; w] -> well_shaped img ->
    (0 < h)%nat -> (0 < w)%nat ->
    process_depth_msg resize img w h clip
    = Returned (clip_and_normalize binary32
                  (mk_ndarray [1%nat; h; w; 1%nat]
                     (map nan_to_num_value
                          (map (round_value binary32) (data img))))
                  clip).
Proof.
  intros img w h clip Hsh Hwf Hh Hw.
  set (clean := np_nan_to_num (np_asarray_float binary32 img)).
  assert (Hshc : shape clean = [h; w]) by exact Hsh.
  assert (Hacc : resize_accepts clean w h)
    by (apply (resize_accepts_depth _ h w); assumption).
  unfold process_depth_msg; cbv zeta; fold clean.
  rewrite (cv2_resize_accepted resize clean w h Hacc).
  rewrite (resize_copy clean w h Hacc) by (rewrite Hshc; reflexivity).
  rewrite Hshc; unfold np_reshape, clean.
  cbn [np_nan_to_num np_asarray_float data shape].
  replace (length (map nan_to_num_value
                       (map (round_value binary32) (data img))))
    with (size_of [1%nat; h; w; 1%nat]).
  - rewrite Nat.eqb_refl; reflexivity.
  - rewrite !length_map, Hwf, Hsh; cbn [size_of fold_right]; lia.
Qed.


(** X20.  The depth pipeline, unlike the colour one, changes nothing on a
    second pass when [clipMax] is absent or equal to 1: for a depth frame of
    the target size that is not empty, normalizing the frame that holds the
    values of the output gives the output again. *)
Theorem depth_second_pass_changes_nothing :
  forall img w h clip,
    shape img = [h; w] -> well_shaped img ->
    (0 < h)%nat -> (0 < w)%nat ->
    clip = None \/ clip = Some (Fin 1) ->
    exists out,
      process_depth_msg resize img w h clip = Returned out /\
      process_depth_msg resize (mk_ndarray [h; w] (data out)) w h clip
      = Returned out.
Proof.
  intros img w h clip Hsh Hwf Hh Hw Hclip.
  assert (Hlen : length (data img) = size_of [h; w])
    by (rewrite <- Hsh; exact Hwf).
  assert (H1 : binary32 1%Q = Fin 1) by exact (rnd_one _ binary32_ieee).
  eexists; split; [apply process_depth_msg_sized; assumption|].
  destruct Hclip as [-> | ->].
  - cbn [clip_and_normalize data].
    rewrite process_depth_msg_sized; try assumption; try reflexivity.
    + cbn [clip_and_normalize data]; rewrite !map_map.
      do 2 f_equal; apply map_ext; intros v.
      destruct (depth_value_is_float32 v) as (r & -> & Hr).
      cbn [round_value]; rewrite Hr; reflexivity.
    + unfold well_shaped; cbn [data shape]; rewrite !length_map; exact Hlen.
  - rewrite (clip_and_normalize_some binary32 _ _ 1%Q 1%Q H1); cbn [data].
    rewrite process_depth_msg_sized; try assumption; try reflexivity.
    + rewrite (clip_and_normalize_some binary32 _ _ 1%Q 1%Q H1).
      cbn [data]; rewrite !map_map.
      do 2 f_equal; apply map_ext; intros v.
      destruct (depth_value_is_float32 v) as (r & -> & _).
      destruct (clip_divide_fin binary32 binary32_ieee 1%Q (Fin r)
                  ltac:(reflexivity) eq_refl)
        as (q & -> & Hq0 & Hq1 & Hq & _).
      cbn [round_value]; rewrite Hq; cbn [nan_to_num_value].
      apply (clip_divide_one_fixed binary32 binary32_ieee); assumption.
    + unfold well_shaped; cbn [data shape]; rewrite !length_map; exact Hlen.
Qed.

(** X21.  What a pixel of a depth frame of the target size reads after
    normalization with a [clipMax] that is a positive number [m'] once
    brought into float32: a number between 0 and 1, which is 0 for a NaN
    and for a negative infinity, 1 for a positive infinity and, for a
    depth stored as the finite float32 [p], 0 when [p <= 0], 1 when
    [m' <= p] and the quotient [p / m'] rounded to float32 between them. *)
Theorem depth_pixel_after_normalization :
  forall img w h (m m' : Q) i v,
    depth_frame img h w ->
    binary32 m = Fin m' -> (0 < m')%Q ->
    nth_error (data img) i = Some v ->
    exists out q,
      process_depth_msg resize img w h (Some (Fin m)) = Returned out /\
      nth_error (data out) i = Some (Fin q) /\
      (0 <= q)%Q /\ (q <= 1)%Q /\
      match round_value binary32 v with
      | NaN | NInf => (q == 0)%Q
      | PInf => (q == 1)%Q
      | Fin p => ((p <= 0)%Q -> (q == 0)%Q) /\
                 ((0 <= p)%Q -> (p <= m')%Q -> Fin q = binary32 (p / m')%Q) /\
                 ((m' <= p)%Q -> (q == 1)%Q)
      end.
Proof.
  intros img w h m m' i v (Hsh & Hh & Hw & Hwf) Hm Hpos Hi.
  destruct (binary32_le_max m m' Hm) as [_ Hmax].
  assert (Hfl : (0 <= FLT_MAX)%Q)
    by (apply Qlt_le_weak, (Qlt_le_trans _ m'); assumption).
  assert (Hnan : is_nan (nan_to_num_value (round_value binary32 v)) = false)
    by (destruct (round_value binary32 v); reflexivity).
  destruct (clip_divide_fin binary32 binary32_ieee m'
              (nan_to_num_value (round_value binary32 v)) Hpos Hnan)
    as (q & Hq & Hq0 & Hq1 & _ & Hcases).
  eexists; exists q.
  split; [apply process_depth_msg_sized; assumption|].
  rewrite (clip_and_normalize_some binary32 _ _ m m' Hm); cbn [data].
  rewrite !nth_error_map, Hi; cbn [option_map].
  split; [rewrite Hq; reflexivity|].
  split; [exact Hq0|]; split; [exact Hq1|].
  destruct (round_value binary32 v) as [| | |p]; cbn [nan_to_num_value] in *.
  - destruct (Hcases 0%Q eq_refl) as (Hlow & _).
    rewrite (Hlow (Qle_refl 0)); reflexivity.
  - destruct (Hcases FLT_MAX eq_refl) as (_ & _ & Hhigh).
    rewrite (Hhigh Hmax); reflexivity.
  - destruct (Hcases (- FLT_MAX)%Q eq_refl) as (Hlow & _).
    rewrite Hlow; [reflexivity|].
    apply (Qopp_le_compat 0 FLT_MAX) in Hfl; exact Hfl.
  - destruct (Hcases p eq_refl) as (Hlow & Hmid & Hhigh).
    split; [intros H; rewrite (Hlow H); reflexivity|].
    split; [exact Hmid|].
    intros H; rewrite (Hhigh H); reflexivity.
Qed.

End SizedFrames.

(** An empty depth frame and a target size of 0 are refused by
    [cv2.resize]: no pass returns on them. *)
Example empty_depth_frame_is_refused :
  process_depth_msg nearest_resize (mk_ndarray [0; 0]%nat []) 0 0 None
    = Raised (Cv2Error "resize of an empty image or to an empty size") /\
  process_depth_msg nearest_resize infinite_depth_pixel 0 1 None
    = Raised (Cv2Error "resize of an empty image or to an empty size").
Proof. split; reflexivity. Qed.


Lemma depth_second_pass_changes_nothing_witness :
  resize_same_size_copies nearest_resize /\
  shape infinite_depth_pixel = [1; 1]%nat /\
  well_shaped infinite_depth_pixel /\
  (0 < 1)%nat /\
  exists out,
    process_depth_msg nearest_resize infinite_depth_pixel 1 1 (Some (Fin 1))
      = Returned out /\
    process_depth_msg nearest_resize (mk_ndarray [1; 1]%nat (data out)) 1 1
                      (Some (Fin 1))
      = Returned out.
Proof.
  assert (Hs : (0 < 1)%nat) by lia.
  split; [exact nearest_resize_same_size_copies|].
  split; [reflexivity|]; split; [reflexivity|]; split; [exact Hs|].
  apply (depth_second_pass_changes_nothing nearest_resize
           nearest_resize_same_size_copies infinite_depth_pixel 1%nat 1%nat
           (Some (Fin 1)) eq_refl eq_refl Hs Hs).
  right; reflexivity.
Defined.

Lemma binary32_3 : binary32 3%Q = Fin 3.
Proof. vm_compute; reflexivity. Qed.

Lemma binary32_third : binary32 (1 / 3)%Q = Fin (11184811 # 33554432).
Proof. vm_compute; reflexivity. Qed.

Lemma depth_pixel_after_normalization_witness :
  resize_same_size_copies nearest_resize /\
  depth_frame (mk_ndarray [1; 1]%nat [Fin 1]) 1 1 /\
  binary32 3%Q = Fin 3 /\ (0 < 3)%Q /\
  exists out q,
    process_depth_msg nearest_resize (mk_ndarray [1; 1]%nat [Fin 1]) 1 1
                      (Some (Fin 3))
      = Returned out /\
    nth_error (data out) 0 = Some (Fin q) /\
    Fin q = Fin (11184811 # 33554432).
Proof.
  assert (Hf : depth_frame (mk_ndarray [1; 1]%nat [Fin 1]) 1 1)
    by (repeat split; auto with arith).
  assert (Hm : (0 < 3)%Q) by reflexivity.
  split; [exact nearest_resize_same_size_copies|].
  split; [exact Hf|]; split; [exact binary32_3|].
  split; [exact Hm|].
  destruct (depth_pixel_after_normalization nearest_resize
              nearest_resize_same_size_copies (mk_ndarray [1; 1]%nat [Fin 1])
              1%nat 1%nat 3%Q 3%Q 0%nat (Fin 1) Hf binary32_3 Hm eq_refl)
    as (out & q & Hout & Hq & _ & _ & Hcases).
  exists out, q; split; [exact Hout|]; split; [exact Hq|].
  assert (H1 : round_value binary32 (Fin 1) = Fin 1)
    by exact (rnd_one _ binary32_ieee).
  rewrite H1 in Hcases; destruct Hcases as (_ & Hmid & _).
  rewrite <- binary32_third; apply Hmid; vm_compute; discriminate.
Defined.

Lemma initiate_only_handshakes_witness :
  exists n,
    (n <= 10)%nat /\
    snd (fst (_initiate (late_server 3) "test-1" false 10 [] 0))
    = [] ++ repeat (PerformHandshake "test-1" false) n /\
    (1 <= n)%nat.
Proof.
  destruct (initiate_only_handshakes (late_server 3) "test-1" false 10 [] 0%Q)
    as (n & Hn & Hc & _ & Hq).
  exists n; split; [exact Hn|]; split; [exact Hc|].
  apply Hq; vm_compute; discriminate.
Defined.
